(** * MortgagePool / MortgageManager / PropertyNFT: a shallow embedding

    The three Solidity contracts of [packages/hardhat/contracts] are modelled
    as functions in a state-and-revert monad over the storage of the three
    contracts.  Solidity 0.8 arithmetic is checked: an overflow or an
    underflow of a [uint256] panics (code 0x11) and a division by zero panics
    (code 0x12); a [require] reverts with its message.  A revert rolls the
    whole transaction back, so a failing call returns no state at all.

    Ether balances are not modelled: a low-level [call{value: v}] fails
    exactly when the recipient rejects the transfer ([rejects] in the world).
    ERC721 holder counts and the string fields of a property are not
    modelled either; none of the properties below depends on them. *)

From Stdlib Require Import ZArith List String Bool Lia.
Import ListNotations.
Open Scope Z_scope.

(** ** Results, checked uint256 arithmetic *)

Inductive err :=
| Revert (msg : string)
| Panic (code : Z).

Inductive result (A : Type) :=
| Ok (a : A)
| Err (e : err).
Arguments Ok {A} a.
Arguments Err {A} e.

Definition UINT_MAX1 : Z := 2 ^ 256.

Definition add256 (a b : Z) : result Z :=
  if a + b <? UINT_MAX1 then Ok (a + b) else Err (Panic 17).
Definition sub256 (a b : Z) : result Z :=
  if b <=? a then Ok (a - b) else Err (Panic 17).
Definition mul256 (a b : Z) : result Z :=
  if a * b <? UINT_MAX1 then Ok (a * b) else Err (Panic 17).
Definition div256 (a b : Z) : result Z :=
  if b =? 0 then Err (Panic 18) else Ok (a / b).

(** ** Events *)

Inductive event :=
(* MortgagePool *)
| LiquidityDeposited (provider amount shares : Z)
| LiquidityWithdrawn (provider amount shares : Z)
| MortgageFunded (borrower amount : Z)
| MortgageRepayment (principal interest : Z)
| InsurancePayout (borrower amount : Z)
(* MortgageManager *)
| MortgageApplied (propertyId borrower loanAmount downPayment : Z)
| MortgageActivated (propertyId borrower : Z)
| PaymentReceived (propertyId borrower amount newOwnershipBPS : Z)
| MortgageCompleted (propertyId borrower : Z)
| MortgageDefaulted (propertyId borrower : Z)
| PropertyForeclosed (propertyId borrower : Z)
(* PropertyNFT / ERC721 *)
| PropertyMinted (tokenId valueUSD totalShares : Z)
| PropertyListed (tokenId timestamp : Z)
| PropertyUnlisted (tokenId : Z)
| Transfer (from to tokenId : Z)
| Approval (owner approved tokenId : Z)
| ApprovalForAll (owner operator : Z) (approved : bool).

(** ** Storage of the three contracts *)

(** A Solidity [mapping] is a total function with the zero default. *)
Definition upd {V : Type} (f : Z -> V) (k : Z) (v : V) : Z -> V :=
  fun x => if x =? k then v else f x.

Record PoolSt := mkPool {
  totalLiquidity : Z;
  totalShares : Z;
  insuranceReserve : Z;
  activeMortgages : Z;
  totalInterestEarned : Z;
  lpShares : Z -> Z;
  lpDepositTimestamp : Z -> Z;
  authorizedBorrowers : Z -> bool;
  pool_owner : Z
}.

Inductive MortgageStatus := None | Applied | Active | PaidOff | Defaulted | Foreclosed.

Definition status_eqb (a b : MortgageStatus) : bool :=
  match a, b with
  | None, None | Applied, Applied | Active, Active | PaidOff, PaidOff
  | Defaulted, Defaulted | Foreclosed, Foreclosed => true
  | _, _ => false
  end.

Record Mortgage := mkMortgage {
  propertyId : Z;
  borrower : Z;
  propertyValue : Z;
  downPayment : Z;
  loanAmount : Z;
  interestRateBPS : Z;
  durationMonths : Z;
  monthlyPayment : Z;
  startTimestamp : Z;
  lastPaymentTimestamp : Z;
  totalPaid : Z;
  ownershipSharesBPS : Z;
  paymentsCount : Z;
  status : MortgageStatus
}.

Definition zero_mortgage : Mortgage :=
  mkMortgage 0 0 0 0 0 0 0 0 0 0 0 0 0 None.

Record MgrSt := mkMgr {
  mortgages : Z -> Mortgage;
  borrowerMortgages : Z -> list Z;
  totalActiveMortgages : Z;
  defaultInterestRateBPS : Z;
  mgr_owner : Z
}.

Record Property := mkProperty {
  valueUSD : Z;
  prop_totalShares : Z;
  isListed : bool;
  listedTimestamp : Z
}.

Definition zero_property : Property := mkProperty 0 0 false 0.

Record NftSt := mkNft {
  tokenIdCounter : Z;
  properties : Z -> Property;
  owners : Z -> Z;
  tokenApprovals : Z -> Z;
  operatorApprovals : Z -> Z -> bool;
  nft_owner : Z
}.

Record World := mkWorld {
  pool : PoolSt;
  mgr : MgrSt;
  nft : NftSt;
  log : list event;
  rejects : Z -> bool
}.

(** Addresses of the three deployed contracts. *)
Definition POOL : Z := 1.
Definition MANAGER : Z := 2.
Definition PROPERTY_NFT : Z := 3.

(** [msg.sender], [msg.value], [block.timestamp]. *)
Record Ctx := mkCtx { sender : Z; value : Z; now : Z }.

(** ** The contract monad *)

Definition M (A : Type) := World -> result (A * World).

Definition ret {A} (a : A) : M A := fun w => Ok (a, w).
Definition bind {A B} (m : M A) (f : A -> M B) : M B :=
  fun w => match m w with Ok (a, w') => f a w' | Err e => Err e end.
Notation "x <- m ;; k" := (bind m (fun x => k))
  (at level 61, m at next level, right associativity).
Notation "m ;;; k" := (bind m (fun _ : unit => k))
  (at level 61, right associativity).

Definition revert {A} (msg : string) : M A := fun _ => Err (Revert msg).
Definition require (b : bool) (msg : string) : M unit :=
  if b then ret tt else revert msg.
Definition chk (r : result Z) : M Z :=
  fun w => match r with Ok a => Ok (a, w) | Err e => Err e end.

Definition getW : M World := fun w => Ok (w, w).
Definition getPool : M PoolSt := fun w => Ok (pool w, w).
Definition getMgr : M MgrSt := fun w => Ok (mgr w, w).
Definition getNft : M NftSt := fun w => Ok (nft w, w).
Definition putPool (p : PoolSt) : M unit :=
  fun w => Ok (tt, mkWorld p (mgr w) (nft w) (log w) (rejects w)).
Definition putMgr (m : MgrSt) : M unit :=
  fun w => Ok (tt, mkWorld (pool w) m (nft w) (log w) (rejects w)).
Definition putNft (n : NftSt) : M unit :=
  fun w => Ok (tt, mkWorld (pool w) (mgr w) n (log w) (rejects w)).
Definition emit (e : event) : M unit :=
  fun w => Ok (tt, mkWorld (pool w) (mgr w) (nft w) (log w ++ [e]) (rejects w)).

(** [(bool success, ) = to.call{value: amount}("")]. *)
Definition call_value (to amount : Z) : M bool :=
  fun w => Ok (negb (rejects w to), w).

(** ** MortgagePool *)

Definition INSURANCE_RATE : Z := 200.
Definition BASIS_POINTS : Z := 10000.

Definition set_pool_amounts (p : PoolSt) (tl ts ir am tie : Z) : PoolSt :=
  mkPool tl ts ir am tie (lpShares p) (lpDepositTimestamp p)
         (authorizedBorrowers p) (pool_owner p).

(** [depositLiquidity()], payable. *)
Definition depositLiquidity (c : Ctx) : M unit :=
  require (0 <? value c) "Must deposit ETH";;;
  p <- getPool;;
  shares <- (if totalShares p =? 0 then ret (value c)
             else (t <- chk (mul256 (value c) (totalShares p));;
                   chk (div256 t (totalLiquidity p))));;
  t <- chk (mul256 (value c) INSURANCE_RATE);;
  insuranceAmount <- chk (div256 t BASIS_POINTS);;
  ir <- chk (add256 (insuranceReserve p) insuranceAmount);;
  lp <- chk (add256 (lpShares p (sender c)) shares);;
  ts <- chk (add256 (totalShares p) shares);;
  tl <- chk (add256 (totalLiquidity p) (value c));;
  putPool (mkPool tl ts ir (activeMortgages p) (totalInterestEarned p)
             (upd (lpShares p) (sender c) lp)
             (upd (lpDepositTimestamp p) (sender c) (now c))
             (authorizedBorrowers p) (pool_owner p));;;
  emit (LiquidityDeposited (sender c) (value c) shares).

(** [withdrawLiquidity(shares)]. *)
Definition withdrawLiquidity (c : Ctx) (shares : Z) : M unit :=
  p <- getPool;;
  require (shares <=? lpShares p (sender c)) "Insufficient shares";;;
  require (0 <? shares) "Must withdraw > 0 shares";;;
  t <- chk (mul256 shares (totalLiquidity p));;
  ethAmount <- chk (div256 t (totalShares p));;
  available <- chk (sub256 (totalLiquidity p) (activeMortgages p));;
  require (ethAmount <=? available)
    "Insufficient liquidity (funds locked in mortgages)";;;
  lp <- chk (sub256 (lpShares p (sender c)) shares);;
  ts <- chk (sub256 (totalShares p) shares);;
  tl <- chk (sub256 (totalLiquidity p) ethAmount);;
  putPool (mkPool tl ts (insuranceReserve p) (activeMortgages p)
             (totalInterestEarned p) (upd (lpShares p) (sender c) lp)
             (lpDepositTimestamp p) (authorizedBorrowers p) (pool_owner p));;;
  success <- call_value (sender c) ethAmount;;
  require success "ETH transfer failed";;;
  emit (LiquidityWithdrawn (sender c) ethAmount shares).

(** [fundMortgage(borrower, amount)]. *)
Definition fundMortgage (c : Ctx) (borrower amount : Z) : M unit :=
  p <- getPool;;
  require (authorizedBorrowers p (sender c)) "Not authorized";;;
  available <- chk (sub256 (totalLiquidity p) (activeMortgages p));;
  require (amount <=? available) "Insufficient liquidity";;;
  am <- chk (add256 (activeMortgages p) amount);;
  putPool (set_pool_amounts p (totalLiquidity p) (totalShares p)
             (insuranceReserve p) am (totalInterestEarned p));;;
  success <- call_value borrower amount;;
  require success "ETH transfer failed";;;
  emit (MortgageFunded borrower amount).

(** [receiveMortgagePayment(principal, interest)], payable. *)
Definition receiveMortgagePayment (c : Ctx) (principal interest : Z) : M unit :=
  p <- getPool;;
  require (authorizedBorrowers p (sender c)) "Not authorized";;;
  s <- chk (add256 principal interest);;
  require (value c =? s) "Payment amount mismatch";;;
  am <- chk (sub256 (activeMortgages p) principal);;
  tl <- chk (add256 (totalLiquidity p) (value c));;
  tie <- chk (add256 (totalInterestEarned p) interest);;
  putPool (set_pool_amounts p tl (totalShares p) (insuranceReserve p) am tie);;;
  emit (MortgageRepayment principal interest).

(** [coverDefault(amount)]. *)
Definition coverDefault (c : Ctx) (amount : Z) : M unit :=
  p <- getPool;;
  require (authorizedBorrowers p (sender c)) "Not authorized";;;
  require (amount <=? insuranceReserve p) "Insufficient insurance reserve";;;
  ir <- chk (sub256 (insuranceReserve p) amount);;
  am <- chk (sub256 (activeMortgages p) amount);;
  putPool (set_pool_amounts p (totalLiquidity p) (totalShares p) ir am
             (totalInterestEarned p));;;
  emit (InsurancePayout (sender c) amount).

(** [availableLiquidity()], view. *)
Definition availableLiquidity : M Z :=
  p <- getPool;;
  chk (sub256 (totalLiquidity p) (activeMortgages p)).

(** [getShareValue(provider)], view. *)
Definition getShareValue (provider : Z) : M Z :=
  p <- getPool;;
  if (lpShares p provider =? 0) || (totalShares p =? 0) then ret 0
  else (t <- chk (mul256 (lpShares p provider) (totalLiquidity p));;
        chk (div256 t (totalShares p))).

(** The public getter of [insuranceReserve]. *)
Definition get_insuranceReserve : M Z :=
  p <- getPool;; ret (insuranceReserve p).

(** OpenZeppelin [onlyOwner]. *)
Definition onlyOwner (owner : Z) (c : Ctx) : M unit :=
  require (sender c =? owner) "OwnableUnauthorizedAccount".

Definition set_authorized (p : PoolSt) (b : Z -> bool) : PoolSt :=
  mkPool (totalLiquidity p) (totalShares p) (insuranceReserve p)
         (activeMortgages p) (totalInterestEarned p) (lpShares p)
         (lpDepositTimestamp p) b (pool_owner p).

(** [authorizeBorrower(borrower)] and [revokeBorrower(borrower)]. *)
Definition authorizeBorrower (c : Ctx) (b : Z) : M unit :=
  p <- getPool;;
  onlyOwner (pool_owner p) c;;;
  putPool (set_authorized p (upd (authorizedBorrowers p) b true)).

Definition revokeBorrower (c : Ctx) (b : Z) : M unit :=
  p <- getPool;;
  onlyOwner (pool_owner p) c;;;
  putPool (set_authorized p (upd (authorizedBorrowers p) b false)).

(** ** PropertyNFT (with the OpenZeppelin v5 ERC721 parts it uses) *)

Definition set_nft_props (n : NftSt) (props : Z -> Property) : NftSt :=
  mkNft (tokenIdCounter n) props (owners n) (tokenApprovals n)
        (operatorApprovals n) (nft_owner n).

(** [getProperty(tokenId)], view. *)
Definition getProperty (tokenId : Z) : M Property :=
  n <- getNft;;
  require (negb (owners n tokenId =? 0)) "Property does not exist";;;
  ret (properties n tokenId).

(** [totalProperties()], view. *)
Definition totalProperties : M Z :=
  n <- getNft;; ret (tokenIdCounter n).

(** [listProperty(tokenId)], only the owner of PropertyNFT. *)
Definition listProperty (c : Ctx) (tokenId : Z) : M unit :=
  n <- getNft;;
  onlyOwner (nft_owner n) c;;;
  require (negb (owners n tokenId =? 0)) "Property does not exist";;;
  let pr := properties n tokenId in
  putNft (set_nft_props n (upd (properties n) tokenId
            (mkProperty (valueUSD pr) (prop_totalShares pr) true (now c))));;;
  emit (PropertyListed tokenId (now c)).

(** [unlistProperty(tokenId)], only the owner of PropertyNFT. *)
Definition unlistProperty (c : Ctx) (tokenId : Z) : M unit :=
  n <- getNft;;
  onlyOwner (nft_owner n) c;;;
  let pr := properties n tokenId in
  putNft (set_nft_props n (upd (properties n) tokenId
            (mkProperty (valueUSD pr) (prop_totalShares pr) false
                        (listedTimestamp pr))));;;
  emit (PropertyUnlisted tokenId).

(** ERC721 [_isAuthorized(owner, spender, tokenId)]. *)
Definition isAuthorized (n : NftSt) (owner spender tokenId : Z) : bool :=
  negb (spender =? 0) &&
  ((owner =? spender) || operatorApprovals n owner spender
   || (tokenApprovals n tokenId =? spender)).

(** ERC721 [_update(to, tokenId, auth)]: returns the previous owner. *)
Definition nft_update (to tokenId auth : Z) : M Z :=
  n <- getNft;;
  let from := owners n tokenId in
  (if negb (auth =? 0) then
     (if isAuthorized n from auth tokenId then ret tt
      else if from =? 0 then revert "ERC721NonexistentToken"
      else revert "ERC721InsufficientApproval")
   else ret tt);;;
  let approvals := if negb (from =? 0) then upd (tokenApprovals n) tokenId 0
                   else tokenApprovals n in
  putNft (mkNft (tokenIdCounter n) (properties n) (upd (owners n) tokenId to)
                approvals (operatorApprovals n) (nft_owner n));;;
  emit (Transfer from to tokenId);;;
  ret from.

(** ERC721 [transferFrom(from, to, tokenId)]. *)
Definition transferFrom (c : Ctx) (from to tokenId : Z) : M unit :=
  require (negb (to =? 0)) "ERC721InvalidReceiver";;;
  previousOwner <- nft_update to tokenId (sender c);;
  require (previousOwner =? from) "ERC721IncorrectOwner".

(** ERC721 [approve(to, tokenId)]. *)
Definition approve (c : Ctx) (to tokenId : Z) : M unit :=
  n <- getNft;;
  let owner := owners n tokenId in
  require (negb (owner =? 0)) "ERC721NonexistentToken";;;
  require ((owner =? sender c) || operatorApprovals n owner (sender c))
    "ERC721InvalidApprover";;;
  emit (Approval owner to tokenId);;;
  putNft (mkNft (tokenIdCounter n) (properties n) (owners n)
                (upd (tokenApprovals n) tokenId to) (operatorApprovals n)
                (nft_owner n)).

(** ERC721 [setApprovalForAll(operator, approved)]. *)
Definition setApprovalForAll (c : Ctx) (operator : Z) (approved : bool) : M unit :=
  n <- getNft;;
  require (negb (operator =? 0)) "ERC721InvalidOperator";;;
  putNft (mkNft (tokenIdCounter n) (properties n) (owners n) (tokenApprovals n)
                (upd (operatorApprovals n) (sender c)
                     (upd (operatorApprovals n (sender c)) operator approved))
                (nft_owner n));;;
  emit (ApprovalForAll (sender c) operator approved).

(** [mintProperty(to, ..., valueUSD, totalShares, ...)], only the owner.
    [_safeMint]'s receiver hook is not modelled: the only contract that
    receives properties, MortgageManager, accepts them. *)
Definition mintProperty (c : Ctx) (to v shares : Z) : M Z :=
  n <- getNft;;
  onlyOwner (nft_owner n) c;;;
  let tokenId := tokenIdCounter n in
  cnt <- chk (add256 tokenId 1);;
  putNft (mkNft cnt (properties n) (owners n) (tokenApprovals n)
                (operatorApprovals n) (nft_owner n));;;
  require (negb (to =? 0)) "ERC721InvalidReceiver";;;
  previousOwner <- nft_update to tokenId 0;;
  require (previousOwner =? 0) "ERC721InvalidSender";;;
  n' <- getNft;;
  putNft (set_nft_props n' (upd (properties n') tokenId
                                (mkProperty v shares false 0)));;;
  emit (PropertyMinted tokenId v shares);;;
  ret tokenId.

(** Ownable [transferOwnership(newOwner)] of PropertyNFT. *)
Definition nft_transferOwnership (c : Ctx) (newOwner : Z) : M unit :=
  n <- getNft;;
  onlyOwner (nft_owner n) c;;;
  require (negb (newOwner =? 0)) "OwnableInvalidOwner";;;
  putNft (mkNft (tokenIdCounter n) (properties n) (owners n) (tokenApprovals n)
                (operatorApprovals n) newOwner).

(** ** MortgageManager *)

Definition SECONDS_PER_MONTH : Z := 30 * 86400.
Definition LATE_FEE_BPS : Z := 500.
Definition GRACE_PERIOD : Z := 15 * 86400.
Definition DEFAULT_PERIOD : Z := 90 * 86400.

Definition rbind {A B} (r : result A) (f : A -> result B) : result B :=
  match r with Ok a => f a | Err e => Err e end.
Notation "x <-- r ;; k" := (rbind r (fun x => k))
  (at level 61, r at next level, right associativity).

Definition set_mortgage (mg : MgrSt) (id : Z) (mo : Mortgage) : MgrSt :=
  mkMgr (upd (mortgages mg) id mo) (borrowerMortgages mg)
        (totalActiveMortgages mg) (defaultInterestRateBPS mg) (mgr_owner mg).

Definition set_totalActive (mg : MgrSt) (n : Z) : MgrSt :=
  mkMgr (mortgages mg) (borrowerMortgages mg) n
        (defaultInterestRateBPS mg) (mgr_owner mg).

Definition with_status (mo : Mortgage) (s : MortgageStatus) : Mortgage :=
  mkMortgage (propertyId mo) (borrower mo) (propertyValue mo) (downPayment mo)
    (loanAmount mo) (interestRateBPS mo) (durationMonths mo)
    (monthlyPayment mo) (startTimestamp mo) (lastPaymentTimestamp mo)
    (totalPaid mo) (ownershipSharesBPS mo) (paymentsCount mo) s.

(** [calculateMonthlyPayment(principal, annualRateBPS, months)], pure. *)
Definition calculateMonthlyPayment (principal annualRateBPS months : Z) : result Z :=
  if months =? 0 then Ok 0 else
  monthlyRateBPS <-- div256 annualRateBPS 12;;
  t <-- mul256 principal annualRateBPS;;
  t' <-- mul256 t months;;
  d <-- mul256 BASIS_POINTS 12;;
  totalInterest <-- div256 t' d;;
  totalPayment <-- add256 principal totalInterest;;
  div256 totalPayment months.

(** Lines 182-190 of [makePayment]: the amount due, with the late fee when
    the last payment is older than one month plus the grace period. *)
Definition expectedPaymentOf (mo : Mortgage) (now : Z) : result Z :=
  let expectedPayment := monthlyPayment mo in
  timeSinceLastPayment <-- sub256 now (lastPaymentTimestamp mo);;
  lim <-- add256 SECONDS_PER_MONTH GRACE_PERIOD;;
  if lim <? timeSinceLastPayment then
    (t <-- mul256 expectedPayment LATE_FEE_BPS;;
     lateFee <-- div256 t BASIS_POINTS;;
     add256 expectedPayment lateFee)
  else Ok expectedPayment.

Definition mgr_ctx (now : Z) (v : Z) : Ctx := mkCtx MANAGER v now.

(** [_activateMortgage(propertyId)]. *)
Definition activateMortgage (now id : Z) : M unit :=
  mg <- getMgr;;
  let mo := mortgages mg id in
  require (status_eqb (status mo) Applied) "Invalid status";;;
  tam <- chk (add256 (totalActiveMortgages mg) 1);;
  putMgr (set_totalActive (set_mortgage mg id (with_status mo Active)) tam);;;
  fundMortgage (mgr_ctx now 0) (borrower mo) (loanAmount mo);;;
  transferFrom (mgr_ctx now 0) MANAGER (borrower mo) id;;;
  unlistProperty (mgr_ctx now 0) id;;;
  emit (MortgageActivated id (borrower mo)).

(** [applyForMortgage(propertyId, durationMonths)], payable. *)
Definition applyForMortgage (c : Ctx) (id durationMonths : Z) : M unit :=
  property <- getProperty id;;
  require (isListed property) "Property not listed";;;
  mg <- getMgr;;
  require (status_eqb (status (mortgages mg id)) None)
    "Property already mortgaged";;;
  t <- chk (mul256 (valueUSD property) 1000);;
  minDownPayment <- chk (div256 t BASIS_POINTS);;
  require (minDownPayment <=? value c) "Insufficient down payment (min 10%)";;;
  loan <- chk (sub256 (valueUSD property) (value c));;
  monthly <- chk (calculateMonthlyPayment loan (defaultInterestRateBPS mg)
                                          durationMonths);;
  available <- availableLiquidity;;
  require (loan <=? available) "Insufficient pool liquidity";;;
  t2 <- chk (mul256 (value c) BASIS_POINTS);;
  initialOwnershipBPS <- chk (div256 t2 (valueUSD property));;
  mg <- getMgr;;
  let mo := mkMortgage id (sender c) (valueUSD property) (value c) loan
              (defaultInterestRateBPS mg) durationMonths monthly (now c) (now c)
              (value c) initialOwnershipBPS 0 Applied in
  putMgr (mkMgr (upd (mortgages mg) id mo)
                (upd (borrowerMortgages mg) (sender c)
                     (borrowerMortgages mg (sender c) ++ [id]))
                (totalActiveMortgages mg) (defaultInterestRateBPS mg)
                (mgr_owner mg));;;
  emit (MortgageApplied id (sender c) loan (value c));;;
  activateMortgage (now c) id.

(** [_completeMortgage(propertyId)]. *)
Definition completeMortgage (id : Z) : M unit :=
  mg <- getMgr;;
  let mo := mortgages mg id in
  let mo' := mkMortgage (propertyId mo) (borrower mo) (propertyValue mo)
               (downPayment mo) (loanAmount mo) (interestRateBPS mo)
               (durationMonths mo) (monthlyPayment mo) (startTimestamp mo)
               (lastPaymentTimestamp mo) (totalPaid mo) BASIS_POINTS
               (paymentsCount mo) PaidOff in
  tam <- chk (sub256 (totalActiveMortgages mg) 1);;
  putMgr (set_totalActive (set_mortgage mg id mo') tam);;;
  emit (MortgageCompleted id (borrower mo)).

(** [makePayment(propertyId)], payable. *)
Definition makePayment (c : Ctx) (id : Z) : M unit :=
  mg <- getMgr;;
  let mo := mortgages mg id in
  require (status_eqb (status mo) Active) "Mortgage not active";;;
  require (sender c =? borrower mo) "Not the borrower";;;
  expectedPayment <- chk (expectedPaymentOf mo (now c));;
  require (expectedPayment <=? value c) "Insufficient payment";;;
  paid <- chk (sub256 (totalPaid mo) (downPayment mo));;
  remainingBalance <- chk (sub256 (loanAmount mo) paid);;
  monthlyInterestRate <- chk (div256 (interestRateBPS mo) 12);;
  t <- chk (mul256 remainingBalance monthlyInterestRate);;
  interestPayment <- chk (div256 t BASIS_POINTS);;
  principalPayment <- chk (sub256 expectedPayment interestPayment);;
  tp <- chk (add256 (totalPaid mo) (value c));;
  pc <- chk (add256 (paymentsCount mo) 1);;
  t' <- chk (mul256 tp BASIS_POINTS);;
  own0 <- chk (div256 t' (propertyValue mo));;
  let own := if BASIS_POINTS <? own0 then BASIS_POINTS else own0 in
  putMgr (set_mortgage mg id
            (mkMortgage (propertyId mo) (borrower mo) (propertyValue mo)
               (downPayment mo) (loanAmount mo) (interestRateBPS mo)
               (durationMonths mo) (monthlyPayment mo) (startTimestamp mo)
               (now c) tp own pc (status mo)));;;
  receiveMortgagePayment (mgr_ctx (now c) (value c))
    principalPayment interestPayment;;;
  emit (PaymentReceived id (sender c) (value c) own);;;
  if (BASIS_POINTS <=? own) || (durationMonths mo <=? pc)
  then completeMortgage id else ret tt.

(** [_foreclose(propertyId)]. *)
Definition foreclose (now id : Z) : M unit :=
  mg <- getMgr;;
  let mo := mortgages mg id in
  putMgr (set_mortgage mg id (with_status mo Foreclosed));;;
  transferFrom (mgr_ctx now 0) (borrower mo) MANAGER id;;;
  listProperty (mgr_ctx now 0) id;;;
  emit (PropertyForeclosed id (borrower mo)).

(** [_handleDefault(propertyId)]. *)
Definition handleDefault (now id : Z) : M unit :=
  mg <- getMgr;;
  let mo := mortgages mg id in
  tam <- chk (sub256 (totalActiveMortgages mg) 1);;
  putMgr (set_totalActive (set_mortgage mg id (with_status mo Defaulted)) tam);;;
  paidAmount <- chk (sub256 (totalPaid mo) (downPayment mo));;
  remainingBalance <- chk (sub256 (loanAmount mo) paidAmount);;
  (if 0 <? remainingBalance then
     (insuranceCoverage <- chk (div256 remainingBalance 2);;
      reserve <- get_insuranceReserve;;
      if insuranceCoverage <=? reserve
      then coverDefault (mgr_ctx now 0) insuranceCoverage
      else ret tt)
   else ret tt);;;
  emit (MortgageDefaulted id (borrower mo));;;
  foreclose now id.

(** [checkDefault(propertyId)], callable by anyone. *)
Definition checkDefault (c : Ctx) (id : Z) : M unit :=
  mg <- getMgr;;
  let mo := mortgages mg id in
  require (status_eqb (status mo) Active) "Mortgage not active";;;
  timeSinceLastPayment <- chk (sub256 (now c) (lastPaymentTimestamp mo));;
  if DEFAULT_PERIOD <? timeSinceLastPayment
  then handleDefault (now c) id else ret tt.

(** [setDefaultInterestRate(rateBPS)], only the owner. *)
Definition setDefaultInterestRate (c : Ctx) (rateBPS : Z) : M unit :=
  mg <- getMgr;;
  onlyOwner (mgr_owner mg) c;;;
  require (rateBPS <=? 2000) "Rate too high (max 20%)";;;
  putMgr (mkMgr (mortgages mg) (borrowerMortgages mg)
                (totalActiveMortgages mg) rateBPS (mgr_owner mg)).

(** [getOwnershipPercentage(propertyId)], view. *)
Definition getOwnershipPercentage (id : Z) : M Z :=
  mg <- getMgr;;
  chk (div256 (ownershipSharesBPS (mortgages mg id)) 100).


(** [isPaymentOverdue(propertyId)], view, in a block with timestamp [now]. *)
Definition isPaymentOverdue (now id : Z) : M bool :=
  mg <- getMgr;;
  let mo := mortgages mg id in
  if negb (status_eqb (status mo) Active) then ret false
  else (timeSinceLastPayment <- chk (sub256 now (lastPaymentTimestamp mo));;
        ret (SECONDS_PER_MONTH <? timeSinceLastPayment)).

(** Ownable [transferOwnership] of the pool and of the manager. *)
Definition pool_transferOwnership (c : Ctx) (newOwner : Z) : M unit :=
  p <- getPool;;
  onlyOwner (pool_owner p) c;;;
  require (negb (newOwner =? 0)) "OwnableInvalidOwner";;;
  putPool (mkPool (totalLiquidity p) (totalShares p) (insuranceReserve p)
             (activeMortgages p) (totalInterestEarned p) (lpShares p)
             (lpDepositTimestamp p) (authorizedBorrowers p) newOwner).

Definition mgr_transferOwnership (c : Ctx) (newOwner : Z) : M unit :=
  mg <- getMgr;;
  onlyOwner (mgr_owner mg) c;;;
  require (negb (newOwner =? 0)) "OwnableInvalidOwner";;;
  putMgr (mkMgr (mortgages mg) (borrowerMortgages mg)
                (totalActiveMortgages mg) (defaultInterestRateBPS mg) newOwner).

(** ** Transactions *)

(** The external entry points of the three contracts. *)
Inductive Op :=
| OpDepositLiquidity (c : Ctx)
| OpWithdrawLiquidity (c : Ctx) (shares : Z)
| OpFundMortgage (c : Ctx) (b amount : Z)
| OpReceiveMortgagePayment (c : Ctx) (principal interest : Z)
| OpCoverDefault (c : Ctx) (amount : Z)
| OpAuthorizeBorrower (c : Ctx) (b : Z)
| OpRevokeBorrower (c : Ctx) (b : Z)
| OpPoolReceive (c : Ctx)
| OpPoolTransferOwnership (c : Ctx) (o : Z)
| OpApplyForMortgage (c : Ctx) (id durationMonths : Z)
| OpMakePayment (c : Ctx) (id : Z)
| OpCheckDefault (c : Ctx) (id : Z)
| OpSetDefaultInterestRate (c : Ctx) (rate : Z)
| OpMgrTransferOwnership (c : Ctx) (o : Z)
| OpMintProperty (c : Ctx) (to v shares : Z)
| OpListProperty (c : Ctx) (id : Z)
| OpUnlistProperty (c : Ctx) (id : Z)
| OpTransferFrom (c : Ctx) (from to id : Z)
| OpApprove (c : Ctx) (to id : Z)
| OpSetApprovalForAll (c : Ctx) (operator : Z) (approved : bool)
| OpNftTransferOwnership (c : Ctx) (o : Z).

(** A call with value to a function that is not [payable] reverts, with an
    empty message. *)
Definition nonpayable (c : Ctx) : M unit := require (value c =? 0) EmptyString.

Definition exec (o : Op) : M unit :=
  match o with
  | OpDepositLiquidity c => depositLiquidity c
  | OpWithdrawLiquidity c s => nonpayable c;;; withdrawLiquidity c s
  | OpFundMortgage c b a => nonpayable c;;; fundMortgage c b a
  | OpReceiveMortgagePayment c p i => receiveMortgagePayment c p i
  | OpCoverDefault c a => nonpayable c;;; coverDefault c a
  | OpAuthorizeBorrower c b => nonpayable c;;; authorizeBorrower c b
  | OpRevokeBorrower c b => nonpayable c;;; revokeBorrower c b
  | OpPoolReceive c => ret tt
  | OpPoolTransferOwnership c o => nonpayable c;;; pool_transferOwnership c o
  | OpApplyForMortgage c id d => applyForMortgage c id d
  | OpMakePayment c id => makePayment c id
  | OpCheckDefault c id => nonpayable c;;; checkDefault c id
  | OpSetDefaultInterestRate c r => nonpayable c;;; setDefaultInterestRate c r
  | OpMgrTransferOwnership c o => nonpayable c;;; mgr_transferOwnership c o
  | OpMintProperty c to v s => nonpayable c;;; (_ <- mintProperty c to v s;; ret tt)
  | OpListProperty c id => nonpayable c;;; listProperty c id
  | OpUnlistProperty c id => nonpayable c;;; unlistProperty c id
  | OpTransferFrom c f t id => nonpayable c;;; transferFrom c f t id
  | OpApprove c t id => nonpayable c;;; approve c t id
  | OpSetApprovalForAll c op b => nonpayable c;;; setApprovalForAll c op b
  | OpNftTransferOwnership c o => nonpayable c;;; nft_transferOwnership c o
  end.

(** Runs transactions in order; a reverted transaction leaves the world as
    it was and the run goes on. *)
Fixpoint run (ops : list Op) (w : World) : World :=
  match ops with
  | [] => w
  | o :: os =>
      match exec o w with
      | Ok (_, w') => run os w'
      | Err _ => run os w
      end
  end.

(** The three contracts right after their constructors, all owned by
    [deployer]. *)
Definition deployed (deployer : Z) (rej : Z -> bool) : World :=
  mkWorld
    (mkPool 0 0 0 0 0 (fun _ => 0) (fun _ => 0) (fun _ => false) deployer)
    (mkMgr (fun _ => zero_mortgage) (fun _ => []) 0 500 deployer)
    (mkNft 0 (fun _ => zero_property) (fun _ => 0) (fun _ => 0)
           (fun _ _ => false) deployer)
    [] rej.

(** Transactions carry ABI-encoded [uint256] values and addresses. *)
Definition uint (x : Z) : Prop := 0 <= x < UINT_MAX1.

Definition wf_ctx (c : Ctx) : Prop := uint (sender c) /\ uint (value c) /\ uint (now c).

Definition wf_op (o : Op) : Prop :=
  match o with
  | OpDepositLiquidity c | OpPoolReceive c => wf_ctx c
  | OpWithdrawLiquidity c x | OpCoverDefault c x | OpAuthorizeBorrower c x
  | OpRevokeBorrower c x | OpPoolTransferOwnership c x | OpMakePayment c x
  | OpCheckDefault c x | OpSetDefaultInterestRate c x
  | OpMgrTransferOwnership c x | OpListProperty c x | OpUnlistProperty c x
  | OpNftTransferOwnership c x | OpSetApprovalForAll c x _ =>
      wf_ctx c /\ uint x
  | OpFundMortgage c x y | OpReceiveMortgagePayment c x y
  | OpApplyForMortgage c x y | OpApprove c x y => wf_ctx c /\ uint x /\ uint y
  | OpMintProperty c x y z | OpTransferFrom c x y z =>
      wf_ctx c /\ uint x /\ uint y /\ uint z
  end.

(** Worlds reachable from the deployment by transactions. *)
Inductive reachable : World -> Prop :=
| reach_deployed : forall d rej, reachable (deployed d rej)
| reach_step : forall w o u w', reachable w -> wf_op o ->
    exec o w = Ok (u, w') -> reachable w'.

(** The context of a transaction. *)
Definition op_ctx (o : Op) : Ctx :=
  match o with
  | OpDepositLiquidity c | OpWithdrawLiquidity c _ | OpFundMortgage c _ _
  | OpReceiveMortgagePayment c _ _ | OpCoverDefault c _
  | OpAuthorizeBorrower c _ | OpRevokeBorrower c _ | OpPoolReceive c
  | OpPoolTransferOwnership c _ | OpApplyForMortgage c _ _
  | OpMakePayment c _ | OpCheckDefault c _ | OpSetDefaultInterestRate c _
  | OpMgrTransferOwnership c _ | OpMintProperty c _ _ _ | OpListProperty c _
  | OpUnlistProperty c _ | OpTransferFrom c _ _ _ | OpApprove c _ _
  | OpSetApprovalForAll c _ _ | OpNftTransferOwnership c _ => c
  end.

(** Transactions are signed by externally owned accounts: never the zero
    address, never one of the three contracts. *)
Definition eoa (a : Z) : Prop :=
  a <> 0 /\ a <> POOL /\ a <> MANAGER /\ a <> PROPERTY_NFT.

(** Successful transactions of external accounts leading from one world to
    another. *)
Inductive steps : World -> World -> Prop :=
| steps_refl : forall w, steps w w
| steps_step : forall w o u w1 w2, wf_op o -> eoa (sender (op_ctx o)) ->
    exec o w = Ok (u, w1) -> steps w1 w2 -> steps w w2.

(** The deployment script [01_deploy_mortgage_system.ts]: three properties
    minted to the manager and listed, the NFT contract handed over to the
    manager, the manager authorised on the pool. *)
Definition DEPLOYER : Z := 10.

Definition deploy_script (v0 v1 v2 : Z) : list Op :=
  [ OpMintProperty (mkCtx DEPLOYER 0 0) MANAGER v0 1000;
    OpListProperty (mkCtx DEPLOYER 0 0) 0;
    OpMintProperty (mkCtx DEPLOYER 0 0) MANAGER v1 1000;
    OpListProperty (mkCtx DEPLOYER 0 0) 1;
    OpMintProperty (mkCtx DEPLOYER 0 0) MANAGER v2 1000;
    OpListProperty (mkCtx DEPLOYER 0 0) 2;
    OpNftTransferOwnership (mkCtx DEPLOYER 0 0) MANAGER;
    OpAuthorizeBorrower (mkCtx DEPLOYER 0 0) MANAGER ].

(** ** A concrete run of the system

    The deployment script with the first property worth [v0], a deposit of
    100 by a liquidity provider, and (for [loan_world]) a 12-month loan on
    property 0 with a down payment of 20, funded by the pool. *)
Definition LP1 : Z := 20.
Definition BORROWER1 : Z := 21.
Definition no_rejects : Z -> bool := fun _ => false.

Definition funded_world (v0 : Z) : World :=
  run (deploy_script v0 150 350 ++ [OpDepositLiquidity (mkCtx LP1 100 1)])
      (deployed DEPLOYER no_rejects).

Definition loan_world : World :=
  run [OpApplyForMortgage (mkCtx BORROWER1 20 2) 0 12] (funded_world 100).

(** The borrower lets the manager move the property, as the foreclosure
    needs. *)
Definition approved_world : World :=
  run [OpApprove (mkCtx BORROWER1 0 3) MANAGER 0] loan_world.

(** One second after the 90-day default period since the last payment. *)
Definition default_time : Z := 2 + DEFAULT_PERIOD + 1.
(** * Proofs *)

(** ** Tactics *)

Arguments UINT_MAX1 : simpl never.

Ltac unfold_monad :=
  cbv beta iota zeta delta [bind ret require revert chk getPool getMgr getNft
    putPool putMgr putNft emit call_value add256 sub256 mul256 div256 rbind
    onlyOwner nonpayable INSURANCE_RATE BASIS_POINTS] in *.

(** Splits a hypothesis [H : m w = Ok _] on every test it depends on. *)
Ltac split_ok H :=
  repeat (simpl in H;
          match type of H with
          | context [if ?b then _ else _] => destruct b eqn:?
          | context [match ?x with Ok _ => _ | Err _ => _ end] =>
              lazymatch x with
              | match _ with _ => _ end => fail
              | (if _ then _ else _) => fail
              | _ => destruct x eqn:?
              end
          end; try discriminate H).

Ltac bool_facts :=
  repeat match goal with
  | H : (_ <? _) = true |- _ => apply Z.ltb_lt in H
  | H : (_ <? _) = false |- _ => apply Z.ltb_ge in H
  | H : (_ <=? _) = true |- _ => apply Z.leb_le in H
  | H : (_ <=? _) = false |- _ => apply Z.leb_gt in H
  | H : (_ =? _) = true |- _ => apply Z.eqb_eq in H
  | H : (_ =? _) = false |- _ => apply Z.eqb_neq in H
  | H : negb _ = true |- _ => apply negb_true_iff in H
  | H : negb _ = false |- _ => apply negb_false_iff in H
  end.

Ltac ok_inv H := injection H as <- <-.

(** ** The concrete run is reachable *)

Lemma reachable_run ops w :
  reachable w -> Forall wf_op ops -> reachable (run ops w).
Proof.
  revert w. induction ops as [|o ops IH]; intros w Hr Hf; simpl; [exact Hr|].
  inversion Hf as [|? ? Ho Hos]; subst.
  destruct (exec o w) as [[u w']|e] eqn:E; apply IH; eauto using reach_step.
Qed.

Ltac wf_ops :=
  repeat constructor;
  simpl; unfold wf_ctx, uint, UINT_MAX1, LP1, BORROWER1, DEPLOYER, MANAGER;
  simpl; lia.

Lemma loan_world_reachable : reachable loan_world.
Proof.
  unfold loan_world, funded_world.
  apply reachable_run; [apply reachable_run; [apply reach_deployed|]|]; wf_ops.
Qed.

(** ** C7: depositLiquidity *)

(** Claim C7.  A deposit of amount [<= 0] reverts with "Must deposit ETH".
    A successful deposit mints [amount] shares when [totalShares] is zero
    and [amount * totalShares / totalLiquidity] (floor) otherwise, adds
    [amount * 200 / 10000] to the insurance reserve and the whole amount to
    [totalLiquidity] (the insurance cut is not subtracted from the liquidity
    used for minting).  When nothing overflows and the pool is not in the
    state [totalShares > 0], [totalLiquidity = 0], the deposit succeeds. *)
Theorem depositLiquidity_mints (c : Ctx) (w : World) :
  let p := pool w in
  let shares := if totalShares p =? 0 then value c
                else value c * totalShares p / totalLiquidity p in
  let cut := value c * INSURANCE_RATE / BASIS_POINTS in
  (value c <= 0 -> depositLiquidity c w = Err (Revert "Must deposit ETH")) /\
  (forall u w', depositLiquidity c w = Ok (u, w') ->
     0 < value c /\
     lpShares (pool w') (sender c) = lpShares p (sender c) + shares /\
     totalShares (pool w') = totalShares p + shares /\
     insuranceReserve (pool w') = insuranceReserve p + cut /\
     totalLiquidity (pool w') = totalLiquidity p + value c /\
     activeMortgages (pool w') = activeMortgages p /\
     log w' = log w ++ [LiquidityDeposited (sender c) (value c) shares]) /\
  (0 < value c ->
   (totalShares p = 0 \/ totalLiquidity p <> 0) ->
   (totalShares p <> 0 -> value c * totalShares p < UINT_MAX1) ->
   value c * INSURANCE_RATE < UINT_MAX1 ->
   insuranceReserve p + cut < UINT_MAX1 ->
   lpShares p (sender c) + shares < UINT_MAX1 ->
   totalShares p + shares < UINT_MAX1 ->
   totalLiquidity p + value c < UINT_MAX1 ->
   exists w', depositLiquidity c w = Ok (tt, w')).
Proof.
  intros p shares cut. subst p shares cut. split; [|split].
  - intros Hv. unfold depositLiquidity. unfold_monad.
    destruct (0 <? value c) eqn:E; [bool_facts; lia | reflexivity].
  - intros u w' H. unfold depositLiquidity in H. unfold_monad.
    split_ok H; ok_inv H; simpl; unfold upd; rewrite ?Z.eqb_refl;
      repeat match goal with E : (_ =? _) = _ |- _ => rewrite E; clear E end;
      bool_facts; repeat split; lia.
  - intros Hv Hl Hm Hi Hr Hlp Hts Htl. unfold depositLiquidity. unfold_monad.
    destruct (totalShares (pool w) =? 0) eqn:E0; bool_facts;
      repeat (simpl; match goal with |- context [if ?b then _ else _] =>
                       destruct b eqn:? end); bool_facts;
      eauto; try lia.
Qed.

(** Closes a goal [exists e, m = Err e] or [m = Err e] after unfolding. *)
Ltac split_goal :=
  repeat (simpl; match goal with
          | |- context [if ?b then _ else _] => destruct b eqn:?
          end); bool_facts.

(** ** C6: withdrawLiquidity beyond the available liquidity *)

(** Claim C6 (as amended).  A withdrawal whose payout
    [shares * totalLiquidity / totalShares] exceeds
    [totalLiquidity - activeMortgages] always fails, and the transaction
    leaves the world (shares, [totalShares], [totalLiquidity], ...)
    unchanged.  When the caller holds the (positive) number of shares it
    asks for, the failure is the liquidity-locked revert. *)
Theorem withdrawLiquidity_locked (c : Ctx) (shares : Z) (w : World) :
  let p := pool w in
  let ethOut := shares * totalLiquidity p / totalShares p in
  (totalLiquidity p - activeMortgages p < ethOut ->
   (exists e, withdrawLiquidity c shares w = Err e) /\
   run [OpWithdrawLiquidity c shares] w = w) /\
  (shares <= lpShares p (sender c) -> 0 < shares -> 0 < totalShares p ->
   shares * totalLiquidity p < UINT_MAX1 ->
   activeMortgages p <= totalLiquidity p ->
   totalLiquidity p - activeMortgages p < ethOut ->
   withdrawLiquidity c shares w =
     Err (Revert "Insufficient liquidity (funds locked in mortgages)")).
Proof.
  intros p ethOut. subst p ethOut. split.
  - intros Hlt.
    assert (He : exists e, withdrawLiquidity c shares w = Err e).
    { unfold withdrawLiquidity. unfold_monad. split_goal; eauto;
        rewrite ?Z.div_0_r in Hlt; lia. }
    split; [exact He|].
    destruct He as [e He]. simpl. unfold bind.
    destruct (nonpayable c w) as [[[] w1]|e1] eqn:Hn; [|reflexivity].
    unfold nonpayable, require, ret, revert in Hn.
    destruct (value c =? 0); [injection Hn as <-|discriminate].
    rewrite He. reflexivity.
  - intros Hs Hpos HS Hm Ham Hlt. unfold withdrawLiquidity. unfold_monad.
    split_goal; try reflexivity; lia.
Qed.

(** ** C3: [activeMortgages <= totalLiquidity] *)

Definition preserves {A} (P : World -> Prop) (m : M A) : Prop :=
  forall w a w', P w -> m w = Ok (a, w') -> P w'.

Section Preserves.
Variable P : World -> Prop.
Hypothesis P_pool : forall w w', pool w = pool w' -> P w -> P w'.

Lemma pres_bind {A B} (m : M A) (f : A -> M B) :
  preserves P m -> (forall a, preserves P (f a)) -> preserves P (bind m f).
Proof.
  intros Hm Hf w b w' Hw H. unfold bind in H.
  destruct (m w) as [[a w1]|e] eqn:E; [|discriminate].
  exact (Hf a w1 b w' (Hm w a w1 Hw E) H).
Qed.

Lemma pres_ret {A} (a : A) : preserves P (ret a).
Proof. intros w b w' Hw H. injection H as _ <-. exact Hw. Qed.

Lemma pres_revert {A} s : preserves P (@revert A s).
Proof. intros w b w' Hw H. discriminate. Qed.

Lemma pres_require b s : preserves P (require b s).
Proof. unfold require. destruct b; [apply pres_ret|apply pres_revert]. Qed.

Lemma pres_chk r : preserves P (chk r).
Proof.
  intros w b w' Hw H. unfold chk in H. destruct r; [|discriminate].
  injection H as _ <-. exact Hw.
Qed.

Lemma pres_reader {A} (f : World -> A) : preserves P (fun w => Ok (f w, w)).
Proof. intros w b w' Hw H. injection H as _ <-. exact Hw. Qed.

Lemma pres_same {A} (m : M A) :
  (forall w a w', m w = Ok (a, w') -> pool w' = pool w) -> preserves P m.
Proof. intros Hm w a w' Hw H. apply (P_pool w); [|exact Hw]. symmetry. eauto. Qed.

Lemma pres_putMgr m : preserves P (putMgr m).
Proof. apply pres_same. intros w a w' H. injection H as _ <-. reflexivity. Qed.

Lemma pres_putNft n : preserves P (putNft n).
Proof. apply pres_same. intros w a w' H. injection H as _ <-. reflexivity. Qed.

Lemma pres_emit e : preserves P (emit e).
Proof. apply pres_same. intros w a w' H. injection H as _ <-. reflexivity. Qed.
End Preserves.

Definition pool_inv (w : World) : Prop :=
  activeMortgages (pool w) <= totalLiquidity (pool w).

Lemma pool_inv_pool : forall w w', pool w = pool w' -> pool_inv w -> pool_inv w'.
Proof. unfold pool_inv. intros w w' E. rewrite E. auto. Qed.

Ltac pres_direct :=
  let w := fresh "w" in let a := fresh "a" in let w' := fresh "w'" in
  let Hw := fresh "Hw" in let H := fresh "H" in
  intros w a w' Hw H; unfold_monad; split_ok H; ok_inv H;
  unfold pool_inv in *; simpl in *; bool_facts; lia.

Lemma depositLiquidity_inv c : preserves pool_inv (depositLiquidity c).
Proof. unfold depositLiquidity. pres_direct. Qed.

Lemma withdrawLiquidity_inv c s : preserves pool_inv (withdrawLiquidity c s).
Proof. unfold withdrawLiquidity. pres_direct. Qed.

Lemma fundMortgage_inv c b a : preserves pool_inv (fundMortgage c b a).
Proof. unfold fundMortgage, set_pool_amounts. pres_direct. Qed.

Lemma receiveMortgagePayment_inv c pr i :
  0 <= value c -> 0 <= pr -> preserves pool_inv (receiveMortgagePayment c pr i).
Proof. intros Hv Hp. unfold receiveMortgagePayment, set_pool_amounts. pres_direct. Qed.

Lemma coverDefault_inv c a : 0 <= a -> preserves pool_inv (coverDefault c a).
Proof. intros Ha. unfold coverDefault, set_pool_amounts. pres_direct. Qed.

Lemma pres_bind_chk {P : World -> Prop} {B} r (f : Z -> M B) :
  (forall x, r = Ok x -> preserves P (f x)) -> preserves P (bind (chk r) f).
Proof.
  intros Hf w b w' Hw H. unfold bind, chk in H.
  destruct r as [x|e]; [|discriminate]. exact (Hf x eq_refl w b w' Hw H).
Qed.

Lemma sub256_nonneg a b x : sub256 a b = Ok x -> 0 <= x.
Proof. unfold sub256. destruct (b <=? a) eqn:E; intro H; [|discriminate]. injection H as <-. bool_facts. lia. Qed.

Lemma div256_nonneg a b x : 0 <= a -> div256 a b = Ok x -> 0 <= b -> 0 <= x.
Proof.
  unfold div256. destruct (b =? 0) eqn:E; intros Ha H Hb; [discriminate|].
  injection H as <-. apply Z.div_pos; bool_facts; lia.
Qed.

Ltac nonneg :=
  match goal with
  | H : sub256 _ _ = Ok ?x |- 0 <= ?x => exact (sub256_nonneg _ _ _ H)
  | H : div256 ?a ?b = Ok ?x |- 0 <= ?x =>
      apply (div256_nonneg a b x); [nonneg | exact H | lia]
  | |- 0 <= _ => lia
  end.

(** Steps through a monadic program made of reads, checks, writes to the
    manager and NFT storage, events and pool calls. *)
Ltac pres_auto :=
  repeat first
    [ progress cbv beta zeta
    | apply depositLiquidity_inv
    | apply withdrawLiquidity_inv
    | apply fundMortgage_inv
    | apply receiveMortgagePayment_inv; simpl; nonneg
    | apply coverDefault_inv; nonneg
    | apply pres_bind_chk; let x := fresh "x" in let Hx := fresh "Hx" in intros x Hx
    | apply pres_bind; [ | intro ]
    | apply pres_ret | apply pres_revert | apply pres_require | apply pres_chk
    | apply pres_putMgr; exact pool_inv_pool
    | apply pres_putNft; exact pool_inv_pool
    | apply pres_emit; exact pool_inv_pool
    | apply pres_reader
    | match goal with |- preserves _ (if ?b then _ else _) => destruct b end ].

Lemma transferFrom_inv c f t id : preserves pool_inv (transferFrom c f t id).
Proof. unfold transferFrom, nft_update. pres_auto. Qed.


Lemma listProperty_inv c id : preserves pool_inv (listProperty c id).
Proof. unfold listProperty. pres_auto. Qed.

Lemma unlistProperty_inv c id : preserves pool_inv (unlistProperty c id).
Proof. unfold unlistProperty. pres_auto. Qed.

Lemma activateMortgage_inv now id : preserves pool_inv (activateMortgage now id).
Proof.
  unfold activateMortgage. pres_auto.
Qed.

Lemma applyForMortgage_inv c id d : preserves pool_inv (applyForMortgage c id d).
Proof.
  unfold applyForMortgage, getProperty, availableLiquidity. pres_auto.
Qed.

Lemma completeMortgage_inv id : preserves pool_inv (completeMortgage id).
Proof. unfold completeMortgage. pres_auto. Qed.

Lemma makePayment_inv c id : 0 <= value c -> preserves pool_inv (makePayment c id).
Proof.
  intros Hv. unfold makePayment. pres_auto.
Qed.

Lemma foreclose_inv now id : preserves pool_inv (foreclose now id).
Proof.
  unfold foreclose. pres_auto.
Qed.

Lemma handleDefault_inv now id : preserves pool_inv (handleDefault now id).
Proof.
  unfold handleDefault, get_insuranceReserve. pres_auto.
Qed.

Lemma checkDefault_inv c id : preserves pool_inv (checkDefault c id).
Proof. unfold checkDefault. pres_auto. Qed.

Ltac pres_same_pool :=
  let w := fresh "w" in let a := fresh "a" in let w' := fresh "w'" in
  let Hw := fresh "Hw" in let H := fresh "H" in
  intros w a w' Hw H; unfold_monad; split_ok H; ok_inv H;
  unfold pool_inv in *; exact Hw.

Lemma authorizeBorrower_inv c b : preserves pool_inv (authorizeBorrower c b).
Proof. unfold authorizeBorrower. pres_same_pool. Qed.

Lemma revokeBorrower_inv c b : preserves pool_inv (revokeBorrower c b).
Proof. unfold revokeBorrower. pres_same_pool. Qed.

Lemma pool_transferOwnership_inv c o :
  preserves pool_inv (pool_transferOwnership c o).
Proof. unfold pool_transferOwnership. pres_same_pool. Qed.

Lemma exec_inv o : wf_op o -> preserves pool_inv (exec o).
Proof.
  intros Hwf. destruct o; simpl in Hwf; unfold exec;
    repeat match goal with H : _ /\ _ |- _ => destruct H end;
    unfold wf_ctx, uint in *;
    try lazymatch goal with
        | |- preserves _ (bind (nonpayable _) _) =>
            apply pres_bind; [unfold nonpayable; apply pres_require | intros []]
        end;
    first [ apply depositLiquidity_inv | apply withdrawLiquidity_inv
          | apply fundMortgage_inv | apply receiveMortgagePayment_inv; lia
          | apply coverDefault_inv; lia | apply authorizeBorrower_inv
          | apply revokeBorrower_inv | apply pool_transferOwnership_inv
          | apply pres_ret | apply applyForMortgage_inv
          | apply makePayment_inv; lia | apply checkDefault_inv
          | apply listProperty_inv | apply unlistProperty_inv
          | apply transferFrom_inv | pres_auto ].
Qed.

(** Claim C3.  In every reachable world, [activeMortgages <= totalLiquidity]
    (so [availableLiquidity = totalLiquidity - activeMortgages] is never
    negative), and every successful transaction (deposit, withdrawal, loan
    funding, repayment, default cover, and the manager and NFT entry points
    that call them) leaves it so. *)
Theorem activeMortgages_le_totalLiquidity (w : World) :
  reachable w ->
  activeMortgages (pool w) <= totalLiquidity (pool w) /\
  (forall o u w', wf_op o -> exec o w = Ok (u, w') ->
     activeMortgages (pool w') <= totalLiquidity (pool w')).
Proof.
  intros Hr.
  assert (Hinv : pool_inv w).
  { induction Hr as [d rej|w o u w' Hr IH Hwf He].
    - unfold pool_inv. simpl. lia.
    - exact (exec_inv o Hwf w u w' IH He). }
  split; [exact Hinv|].
  intros o u w' Hwf He. exact (exec_inv o Hwf w u w' Hinv He).
Qed.

Lemma activeMortgages_le_totalLiquidity_witness :
  reachable loan_world /\
  activeMortgages (pool loan_world) <= totalLiquidity (pool loan_world).
Proof.
  split; [exact loan_world_reachable|].
  exact (proj1 (activeMortgages_le_totalLiquidity _ loan_world_reachable)).
Defined.

(** ** makePayment *)

Definition payment_done (mo : Mortgage) (own pc : Z) : bool :=
  (BASIS_POINTS <=? own) || (durationMonths mo <=? pc).

Lemma status_eqb_true a b : status_eqb a b = true -> a = b.
Proof. destruct a, b; simpl; congruence. Qed.

(** What a successful [makePayment] does. *)
Lemma makePayment_ok c id w u w' :
  makePayment c id w = Ok (u, w') ->
  let mo := mortgages (mgr w) id in
  let interest := (loanAmount mo - (totalPaid mo - downPayment mo))
                  * (interestRateBPS mo / 12) / BASIS_POINTS in
  let tp := totalPaid mo + value c in
  let own := Z.min BASIS_POINTS (tp * BASIS_POINTS / propertyValue mo) in
  let pc := paymentsCount mo + 1 in
  status mo = Active /\ sender c = borrower mo /\
  expectedPaymentOf mo (now c) = Ok (value c) /\
  downPayment mo <= totalPaid mo /\
  totalPaid mo - downPayment mo <= loanAmount mo /\
  interest <= value c /\
  propertyValue mo <> 0 /\
  activeMortgages (pool w') = activeMortgages (pool w) - (value c - interest) /\
  totalLiquidity (pool w') = totalLiquidity (pool w) + value c /\
  totalInterestEarned (pool w') = totalInterestEarned (pool w) + interest /\
  insuranceReserve (pool w') = insuranceReserve (pool w) /\
  (exists tl, log w' = log w ++ MortgageRepayment (value c - interest) interest
                     :: PaymentReceived id (sender c) (value c) own :: tl) /\
  mortgages (mgr w') id =
    mkMortgage (propertyId mo) (borrower mo) (propertyValue mo)
      (downPayment mo) (loanAmount mo) (interestRateBPS mo) (durationMonths mo)
      (monthlyPayment mo) (startTimestamp mo) (now c) tp
      (if payment_done mo own pc then BASIS_POINTS else own) pc
      (if payment_done mo own pc then PaidOff else Active) /\
  (forall j, j <> id -> mortgages (mgr w') j = mortgages (mgr w) j).
Proof.
  intros H. unfold makePayment, receiveMortgagePayment, completeMortgage,
    set_mortgage, set_totalActive, set_pool_amounts, mgr_ctx, payment_done in *.
  unfold_monad. split_ok H.
  all: ok_inv H; apply status_eqb_true in Heqb; simpl; unfold upd;
    rewrite ?Z.eqb_refl.
  all: repeat match goal with
              | |- context [Z.min ?a ?b] =>
                  destruct (Z.min_spec a b) as [[? ->]|[? ->]]
              end.
  all: repeat match goal with
              | |- context [if ?b then _ else _] => destruct b eqn:?
              end.
  all: repeat match goal with
              | E : (_ || _) = false |- _ => apply orb_false_iff in E; destruct E
              | E : (_ || _) = true |- _ => apply orb_true_iff in E; destruct E
              end.
  all: bool_facts; try (exfalso; lia).
  all: match goal with
       | E : ?v = ?a - ?i + ?i |- _ =>
           assert (a = v) by lia; subst a
       end.
  all: repeat split; try lia; try assumption.
  all: try (eexists; rewrite <- !app_assoc; reflexivity).
  all: try (intros j Hj; rewrite !(proj2 (Z.eqb_neq j id) Hj); reflexivity).
  all: try (rewrite Heqb; reflexivity).
Qed.

(** ** applyForMortgage *)

Ltac status_facts :=
  repeat match goal with
         | E : status_eqb _ _ = true |- _ => apply status_eqb_true in E
         end.

Ltac kill_refl :=
  try match goal with E : (?x =? ?x) = false |- _ =>
        rewrite Z.eqb_refl in E; discriminate E end.

(** What a successful [applyForMortgage] does. *)
Lemma applyForMortgage_ok c id d w u w' :
  applyForMortgage c id d w = Ok (u, w') ->
  let pr := properties (nft w) id in
  let mo' := mortgages (mgr w') id in
  owners (nft w) id <> 0 /\ isListed pr = true /\
  status (mortgages (mgr w) id) = None /\
  valueUSD pr * 1000 / BASIS_POINTS <= value c /\
  value c <= valueUSD pr /\ valueUSD pr <> 0 /\
  propertyValue mo' = valueUSD pr /\ downPayment mo' = value c /\
  loanAmount mo' = valueUSD pr - value c /\ totalPaid mo' = value c /\
  ownershipSharesBPS mo' = value c * BASIS_POINTS / valueUSD pr /\
  status mo' = Active /\
  (forall j, j <> id -> mortgages (mgr w') j = mortgages (mgr w) j).
Proof.
  intros H. unfold applyForMortgage, activateMortgage, getProperty,
    availableLiquidity, fundMortgage, transferFrom, nft_update,
    unlistProperty, set_mortgage, set_totalActive, with_status,
    set_nft_props, set_pool_amounts, mgr_ctx in *.
  unfold_monad. split_ok H.
  all: kill_refl.
  all: ok_inv H; status_facts; simpl; unfold upd;
    rewrite ?Z.eqb_refl; bool_facts.
  all: repeat split; simpl; try lia; try assumption; try reflexivity.
  intros j Hj. rewrite (proj2 (Z.eqb_neq j id) Hj). reflexivity.
Qed.

(** ** checkDefault *)

(** What a successful [checkDefault] does. *)
Lemma checkDefault_ok c id w u w' :
  checkDefault c id w = Ok (u, w') ->
  let mo := mortgages (mgr w) id in
  let R := loanAmount mo - (totalPaid mo - downPayment mo) in
  let tail := [MortgageDefaulted id (borrower mo);
               Transfer (borrower mo) MANAGER id;
               PropertyListed id (now c);
               PropertyForeclosed id (borrower mo)] in
  status mo = Active /\ lastPaymentTimestamp mo <= now c /\
  (now c - lastPaymentTimestamp mo <= DEFAULT_PERIOD -> w' = w) /\
  (DEFAULT_PERIOD < now c - lastPaymentTimestamp mo ->
     status (mortgages (mgr w') id) = Foreclosed /\
     downPayment mo <= totalPaid mo /\ 0 <= R /\
     (0 < R -> R / 2 <= insuranceReserve (pool w) ->
        insuranceReserve (pool w') = insuranceReserve (pool w) - R / 2 /\
        activeMortgages (pool w') = activeMortgages (pool w) - R / 2 /\
        log w' = log w ++ InsurancePayout MANAGER (R / 2) :: tail) /\
     (R = 0 \/ insuranceReserve (pool w) < R / 2 ->
        pool w' = pool w /\ log w' = log w ++ tail)) /\
  (forall j, j <> id -> mortgages (mgr w') j = mortgages (mgr w) j).
Proof.
  intros H. unfold checkDefault, handleDefault, foreclose, coverDefault,
    get_insuranceReserve, transferFrom, nft_update, listProperty,
    set_mortgage, set_totalActive, with_status, set_nft_props,
    set_pool_amounts, mgr_ctx in *.
  unfold_monad. split_ok H.
  all: kill_refl.
  all: ok_inv H; status_facts; unfold upd in *; simpl in *;
    rewrite ?Z.eqb_refl in *; simpl in *; bool_facts.
  all: repeat split; simpl; intros; try lia; try assumption; try reflexivity.
  all: repeat match goal with E : ?a = borrower ?m |- _ => rewrite <- E end.
  all: try (rewrite <- !app_assoc; reflexivity).
  all: try match goal with
           | Hj : ?j <> ?i |- _ =>
               rewrite !(proj2 (Z.eqb_neq j i) Hj); reflexivity
           end.
Qed.

(** ** The loans are changed only by the three loan entry points *)

Definition loan_op (o : Op) : bool :=
  match o with
  | OpApplyForMortgage _ _ _ | OpMakePayment _ _ | OpCheckDefault _ _ => true
  | _ => false
  end.

Lemma exec_frame_mortgages o w u w' :
  loan_op o = false -> exec o w = Ok (u, w') ->
  mortgages (mgr w') = mortgages (mgr w).
Proof.
  intros Hl H. destruct o; try discriminate Hl; unfold exec in H;
    unfold depositLiquidity, withdrawLiquidity, fundMortgage,
      receiveMortgagePayment, coverDefault, authorizeBorrower, revokeBorrower,
      pool_transferOwnership, setDefaultInterestRate, mgr_transferOwnership,
      mintProperty, listProperty, unlistProperty, transferFrom, approve,
      setApprovalForAll, nft_transferOwnership, nft_update, set_nft_props,
      set_pool_amounts, set_authorized in H;
    unfold_monad; split_ok H; ok_inv H; reflexivity.
Qed.

(** ** C4: ownership of an active loan *)

Definition loan_ok (mo : Mortgage) : Prop :=
  status mo = Active ->
  0 < propertyValue mo /\
  ownershipSharesBPS mo =
    Z.min BASIS_POINTS (totalPaid mo * BASIS_POINTS / propertyValue mo).

Definition loans_inv (w : World) : Prop := forall j, loan_ok (mortgages (mgr w) j).

Lemma loans_inv_deployed d rej : loans_inv (deployed d rej).
Proof. intros j H. discriminate H. Qed.

Lemma exec_nonpayable {A} c (m : M A) w r :
  (nonpayable c;;; m) w = r -> r = m w \/ exists e, r = Err e.
Proof.
  unfold nonpayable, require, bind, ret, revert. destruct (value c =? 0); eauto.
Qed.

Lemma exec_loans_inv o w u w' :
  wf_op o -> loans_inv w -> exec o w = Ok (u, w') -> loans_inv w'.
Proof.
  intros Hwf Hinv H. destruct (loan_op o) eqn:Hl.
  2: { intros j. rewrite (exec_frame_mortgages o w u w' Hl H). apply Hinv. }
  destruct o; try discriminate Hl; simpl in Hwf; unfold wf_ctx, uint in Hwf;
    simpl in H.
  - (* applyForMortgage *)
    destruct (applyForMortgage_ok _ _ _ _ _ _ H)
      as (_ & _ & _ & _ & Hle & Hpv & Hpv' & _ & _ & Htp & Hown & Hst & Hoth).
    intros j. destruct (Z.eq_dec j id) as [->|Hj].
    + intros _. rewrite Hpv', Htp, Hown. split; [lia|].
      rewrite Z.min_r; [reflexivity|].
      apply Z.div_le_upper_bound; unfold BASIS_POINTS; lia.
    + rewrite (Hoth j Hj). apply Hinv.
  - (* makePayment *)
    pose proof (makePayment_ok _ _ _ _ _ H) as Hm. simpl in Hm.
    destruct Hm as (Hst & _ & _ & _ & _ & _ & _ & _ & _ & _ & _ & _ & Hmo & Hoth).
    intros j. destruct (Z.eq_dec j id) as [->|Hj].
    + rewrite Hmo. destruct (Hinv id Hst) as [Hpv _].
      destruct (payment_done _ _ _); simpl; intros Ha; [discriminate Ha|].
      split; [exact Hpv|reflexivity].
    + rewrite (Hoth j Hj). apply Hinv.
  - (* checkDefault *)
    destruct (exec_nonpayable _ _ _ _ H) as [H'|[e He]];
      [|discriminate He].
    symmetry in H'.
    destruct (checkDefault_ok _ _ _ _ _ H') as (_ & _ & Hno & Hyes & Hoth).
    intros j. destruct (Z.eq_dec j id) as [->|Hj].
    + destruct (Z_lt_le_dec DEFAULT_PERIOD
                  (now c - lastPaymentTimestamp (mortgages (mgr w) id)))
        as [Hgt|Hle].
      * destruct (Hyes Hgt) as [Hf _]. intros Ha. congruence.
      * rewrite (Hno Hle). apply Hinv.
    + rewrite (Hoth j Hj). apply Hinv.
Qed.

Lemma reachable_loans_inv w : reachable w -> loans_inv w.
Proof.
  induction 1 as [d rej|w o u w' _ IH Hwf He].
  - apply loans_inv_deployed.
  - exact (exec_loans_inv o w u w' Hwf IH He).
Qed.




(** ** C2 and C10: the split of a payment *)

(** Claim C2.  A successful [makePayment] splits the payment into the
    interest [outstanding * (interestRateBPS / 12) / 10000] on the current
    outstanding balance [outstanding = loanAmount - (totalPaid -
    downPayment)] and the principal [paidValue - interest], and calls the
    pool's [receiveMortgagePayment] with exactly that split (the pool emits
    [MortgageRepayment principal interest] and books it). *)
Theorem makePayment_split (c : Ctx) (id : Z) (w : World) (u : unit) (w' : World) :
  makePayment c id w = Ok (u, w') ->
  let mo := mortgages (mgr w) id in
  let outstanding := loanAmount mo - (totalPaid mo - downPayment mo) in
  let interest := outstanding * (interestRateBPS mo / 12) / BASIS_POINTS in
  0 <= outstanding /\ interest <= value c /\
  (exists tl, log w' = log w ++ MortgageRepayment (value c - interest) interest :: tl) /\
  activeMortgages (pool w') = activeMortgages (pool w) - (value c - interest) /\
  totalLiquidity (pool w') = totalLiquidity (pool w) + value c /\
  totalInterestEarned (pool w') = totalInterestEarned (pool w) + interest.
Proof.
  intros H. pose proof (makePayment_ok _ _ _ _ _ H) as Hm. simpl in Hm |- *.
  destruct Hm as (_ & _ & _ & _ & Hle & Hi & _ & Ham & Htl & Hie & _ & [tl Hlog] & _).
  repeat split; try lia; try assumption.
  exists (PaymentReceived id (sender c) (value c)
            (Z.min BASIS_POINTS ((totalPaid (mortgages (mgr w) id) + value c)
               * BASIS_POINTS / propertyValue (mortgages (mgr w) id))) :: tl).
  exact Hlog.
Qed.

Lemma makePayment_split_witness :
  exists u w', makePayment (mkCtx BORROWER1 7 100) 0 loan_world = Ok (u, w') /\
    activeMortgages (pool w') = 73.
Proof.
  exists tt, (run [OpMakePayment (mkCtx BORROWER1 7 100) 0] loan_world).
  assert (H : makePayment (mkCtx BORROWER1 7 100) 0 loan_world =
              Ok (tt, run [OpMakePayment (mkCtx BORROWER1 7 100) 0] loan_world))
    by (vm_compute; reflexivity).
  split; [exact H|].
  destruct (makePayment_split _ _ _ _ _ H) as (_ & _ & _ & Ham & _).
  rewrite Ham. vm_compute. reflexivity.
Defined.

(** Claim C10.  A successful [makePayment] was paid exactly the amount due
    (monthly payment, plus the late fee when late).  A payment strictly
    above the amount due always fails, and the transaction leaves the world
    unchanged. *)
Theorem makePayment_exact (c : Ctx) (id : Z) (w : World) :
  (forall u w', makePayment c id w = Ok (u, w') ->
     expectedPaymentOf (mortgages (mgr w) id) (now c) = Ok (value c)) /\
  (forall e, expectedPaymentOf (mortgages (mgr w) id) (now c) = Ok e ->
     e < value c ->
     (exists er, makePayment c id w = Err er) /\
     run [OpMakePayment c id] w = w).
Proof.
  split.
  - intros u w' H. pose proof (makePayment_ok _ _ _ _ _ H) as Hm. simpl in Hm.
    destruct Hm as (_ & _ & He & _). exact He.
  - intros e He Hlt.
    destruct (makePayment c id w) as [[u w']|er] eqn:E.
    + exfalso. pose proof (makePayment_ok _ _ _ _ _ E) as Hm. simpl in Hm.
      destruct Hm as (_ & _ & He' & _). rewrite He in He'.
      injection He' as ->. lia.
    + split; [eauto|]. cbn [run exec]. rewrite E. reflexivity.
Qed.

Lemma makePayment_exact_witness :
  expectedPaymentOf (mortgages (mgr loan_world) 0) 100 = Ok 7 /\ 7 < 8 /\
  run [OpMakePayment (mkCtx BORROWER1 8 100) 0] loan_world = loan_world.
Proof.
  assert (He : expectedPaymentOf (mortgages (mgr loan_world) 0) 100 = Ok 7)
    by (vm_compute; reflexivity).
  split; [exact He|]. split; [lia|].
  exact (proj2 (proj2 (makePayment_exact (mkCtx BORROWER1 8 100) 0 loan_world)
                 7 He ltac:(simpl; lia))).
Defined.

(** ** C8: calculateMonthlyPayment *)

(** Claim C8.  For [months > 0], a monthly payment computed by
    [calculateMonthlyPayment] is
    [(principal + principal * rate * months / (10000 * 12)) / months]
    (floor divisions); it is computed whenever the products fit in 256
    bits. *)
Theorem calculateMonthlyPayment_formula (p r m : Z) :
  (0 < m -> forall x, calculateMonthlyPayment p r m = Ok x ->
     x = (p + p * r * m / (BASIS_POINTS * 12)) / m) /\
  (0 <= p -> 0 <= r -> 0 < m -> p * r * m < UINT_MAX1 ->
   p + p * r * m / (BASIS_POINTS * 12) < UINT_MAX1 ->
   calculateMonthlyPayment p r m = Ok ((p + p * r * m / (BASIS_POINTS * 12)) / m)).
Proof.
  split.
  - intros Hm x H. unfold calculateMonthlyPayment in H. unfold_monad.
    split_ok H. all: bool_facts; try lia.
    all: injection H as <-; reflexivity.
  - intros Hp Hr Hm Hprm Hs. unfold calculateMonthlyPayment. unfold_monad.
    change (10000 * 12) with 120000 in Hs.
    assert (Hpr : p * r <= p * r * m) by nia.
    assert (Hc : 10000 * 12 < UINT_MAX1) by (unfold UINT_MAX1; lia).
    split_goal; try lia; reflexivity.
Qed.

Lemma calculateMonthlyPayment_formula_witness :
  calculateMonthlyPayment 80 500 12 = Ok 7 /\
  80 * 500 * 12 / (BASIS_POINTS * 12) = 4.
Proof.
  split; [|reflexivity].
  rewrite (proj2 (calculateMonthlyPayment_formula 80 500 12));
    [reflexivity|unfold UINT_MAX1, BASIS_POINTS; simpl; lia ..].
Defined.

(** ** C5: the down payment *)

(** Claim C5 (as amended).  An accepted application records the value sent
    as the down payment, with [downPayment >= floor(assetValue * 1000 /
    10000)] (the floor of 10%, not 10% itself) and
    [loanAmount + downPayment = assetValue].  A down payment below that
    floor fails, with the down-payment revert once the property exists, is
    listed and has no loan. *)
Theorem applyForMortgage_downpayment (c : Ctx) (id d : Z) (w : World) :
  let v := valueUSD (properties (nft w) id) in
  (forall u w', applyForMortgage c id d w = Ok (u, w') ->
     let mo' := mortgages (mgr w') id in
     downPayment mo' = value c /\ propertyValue mo' = v /\
     propertyValue mo' * 1000 / BASIS_POINTS <= downPayment mo' /\
     loanAmount mo' + downPayment mo' = propertyValue mo') /\
  (value c < v * 1000 / BASIS_POINTS ->
     (exists e, applyForMortgage c id d w = Err e) /\
     (owners (nft w) id <> 0 -> isListed (properties (nft w) id) = true ->
      status (mortgages (mgr w) id) = None -> v * 1000 < UINT_MAX1 ->
      applyForMortgage c id d w =
        Err (Revert "Insufficient down payment (min 10%)"))).
Proof.
  intros v. split.
  - intros u w' H. pose proof (applyForMortgage_ok _ _ _ _ _ _ H) as Ha.
    simpl in Ha.
    destruct Ha as (_ & _ & _ & Hmin & _ & _ & Hpv & Hdp & Hla & _).
    subst v. cbv zeta. rewrite Hpv, Hdp, Hla. repeat split; try lia.
  - intros Hlt. split.
    + destruct (applyForMortgage c id d w) as [[u w']|e] eqn:E; [|eauto].
      exfalso. pose proof (applyForMortgage_ok _ _ _ _ _ _ E) as Ha.
      simpl in Ha. destruct Ha as (_ & _ & _ & Hmin & _). subst v. lia.
    + intros Ho Hl Hs Hv. subst v.
      unfold applyForMortgage, getProperty. unfold_monad.
      split_goal; try reflexivity; try lia; try congruence.
      all: rewrite Hs in *; discriminate.
Qed.

Lemma applyForMortgage_downpayment_witness :
  let w1 := run [OpApplyForMortgage (mkCtx BORROWER1 20 2) 0 12] (funded_world 100) in
  applyForMortgage (mkCtx BORROWER1 20 2) 0 12 (funded_world 100) = Ok (tt, w1) /\
  propertyValue (mortgages (mgr w1) 0) * 1000 / BASIS_POINTS <=
    downPayment (mortgages (mgr w1) 0).
Proof.
  intros w1.
  assert (H : applyForMortgage (mkCtx BORROWER1 20 2) 0 12 (funded_world 100) =
              Ok (tt, w1)) by (vm_compute; reflexivity).
  split; [exact H|].
  exact (proj1 (proj2 (proj2 (proj1 (applyForMortgage_downpayment _ _ _ _) _ _ H)))).
Defined.

(** An application on the property worth 19 with a down payment of 1 is
    accepted, though [1 < 0.10 * 19]. *)
Lemma applyForMortgage_downpayment_counterexample :
  let w1 := run [OpApplyForMortgage (mkCtx BORROWER1 1 2) 0 12] (funded_world 19) in
  exec (OpApplyForMortgage (mkCtx BORROWER1 1 2) 0 12) (funded_world 19) = Ok (tt, w1) /\
  status (mortgages (mgr w1) 0) = Active /\
  downPayment (mortgages (mgr w1) 0) = 1 /\
  propertyValue (mortgages (mgr w1) 0) = 19 /\
  10 * downPayment (mortgages (mgr w1) 0) < propertyValue (mortgages (mgr w1) 0).
Proof. vm_compute. repeat split; reflexivity. Qed.

(** ** C9: a second application *)




(** ** C6: counterexample *)

(** In [loan_world] (100 deposited, 80 lent, so 20 available) a holder of
    no shares asks for 100 shares: the payout [100 * 100 / 100] exceeds the
    available 20, yet the revert is "Insufficient shares". *)
Lemma withdrawLiquidity_locked_counterexample :
  totalLiquidity (pool loan_world) - activeMortgages (pool loan_world) <
    100 * totalLiquidity (pool loan_world) / totalShares (pool loan_world) /\
  withdrawLiquidity (mkCtx BORROWER1 0 3) 100 loan_world =
    Err (Revert "Insufficient shares").
Proof. vm_compute. split; reflexivity. Qed.

(** ** C1: default *)




(** ** The pool's share accounting *)

Fixpoint sumZ (f : Z -> Z) (l : list Z) : Z :=
  match l with [] => 0 | a :: l => f a + sumZ f l end.

Lemma sumZ_upd_notin f x v l : ~ In x l -> sumZ (upd f x v) l = sumZ f l.
Proof.
  induction l as [|a l IH]; simpl; intros Hn; [reflexivity|].
  unfold upd at 1. destruct (a =? x) eqn:E; bool_facts; [exfalso; auto|].
  rewrite IH; auto.
Qed.

Lemma sumZ_upd_in f x v l :
  NoDup l -> In x l -> sumZ (upd f x v) l = sumZ f l - f x + v.
Proof.
  induction l as [|a l IH]; simpl; intros Hd Hi; [contradiction|].
  inversion Hd as [|? ? Hna Hd']; subst.
  unfold upd at 1. destruct (a =? x) eqn:E; bool_facts.
  - subst a. rewrite sumZ_upd_notin by exact Hna. lia.
  - destruct Hi as [Hi|Hi]; [congruence|]. rewrite IH by assumption. lia.
Qed.

(** Writing [v >= 0] over one holder's entry moves a bound on the sum of the
    entries of any duplicate-free list of holders by [v - f x]. *)
Lemma sumZ_upd_bound f S x v l :
  0 <= v -> (forall l, NoDup l -> sumZ f l <= S) -> NoDup l ->
  sumZ (upd f x v) l <= S + v - f x.
Proof.
  intros Hv Hs Hd. destruct (in_dec Z.eq_dec x l) as [Hi|Hn].
  - rewrite sumZ_upd_in by assumption. specialize (Hs l Hd). lia.
  - rewrite sumZ_upd_notin by assumption.
    assert (Hd' : NoDup (x :: l)) by (constructor; assumption).
    specialize (Hs _ Hd'). simpl in Hs. lia.
Qed.


(** The share invariant of the pool: liquidity is never negative and is
    positive while shares are outstanding, and the shares of any set of
    providers add up to at most [totalShares]. *)
Definition lp_inv (w : World) : Prop :=
  let p := pool w in
  0 <= totalLiquidity p /\
  (0 < totalShares p -> 0 < totalLiquidity p) /\
  (forall a, 0 <= lpShares p a) /\
  (forall l, NoDup l -> sumZ (lpShares p) l <= totalShares p).

Lemma lp_inv_pool : forall w w', pool w = pool w' -> lp_inv w -> lp_inv w'.
Proof. unfold lp_inv. intros w w' E. rewrite E. auto. Qed.

Lemma lp_inv_shares w : lp_inv w ->
  0 <= totalShares (pool w) /\ forall a, lpShares (pool w) a <= totalShares (pool w).
Proof.
  intros (_ & _ & _ & Hs). split.
  - exact (Hs [] (NoDup_nil _)).
  - intros a.
    assert (Hd : NoDup [a]) by (constructor; [intros []|constructor]).
    pose proof (Hs [a] Hd). simpl in *. lia.
Qed.

Ltac lp_upd :=
  let b := fresh "b" in
  intros b; unfold upd;
  match goal with |- context [if (b =? ?x) then _ else _] => destruct (b =? x) end;
  auto.

Lemma depositLiquidity_lp c : preserves lp_inv (depositLiquidity c).
Proof.
  intros w a w' Hw H. pose proof (lp_inv_shares w Hw) as [HS0 _].
  destruct Hw as (HL & HSL & Hlp & Hsum).
  assert (HLp : totalShares (pool w) = 0 \/ 0 < totalLiquidity (pool w))
    by (destruct (Z.eq_dec (totalShares (pool w)) 0); [left|right; apply HSL]; lia).
  unfold depositLiquidity in H. unfold_monad. split_ok H; ok_inv H; bool_facts;
    unfold lp_inv; simpl.
  all: match goal with
       | |- context [upd _ _ (lpShares _ _ + ?sh)] =>
           assert (Hsh : 0 <= sh)
             by first [lia | destruct HLp; [lia|apply Z.div_pos; nia]]
       end.
  all: repeat split; try lia.
  all: try (lp_upd; specialize (Hlp (sender c)); lia).
  all: intros l Hd; eapply Z.le_trans;
         [apply (sumZ_upd_bound _ (totalShares (pool w)) _ _ l); [specialize (Hlp (sender c)); lia
                                            | exact Hsum | exact Hd]
         | lia].
Qed.

Lemma withdrawLiquidity_lp c s : preserves lp_inv (withdrawLiquidity c s).
Proof.
  intros w a w' Hw H. pose proof (lp_inv_shares w Hw) as [HS0 _].
  destruct Hw as (HL & HSL & Hlp & Hsum).
  unfold withdrawLiquidity in H. unfold_monad. split_ok H; ok_inv H; bool_facts;
    unfold lp_inv; simpl.
  assert (HS : 0 < totalShares (pool w)) by lia.
  specialize (HSL HS).
  repeat split; try lia.
  - intros Hpos. cut (s * totalLiquidity (pool w) / totalShares (pool w)
                      < totalLiquidity (pool w)); [lia|].
    apply Z.div_lt_upper_bound; [exact HS|nia].
  - lp_upd; lia.
  - intros l Hd. eapply Z.le_trans;
      [apply (sumZ_upd_bound _ (totalShares (pool w)) _ _ l); [lia|exact Hsum|exact Hd]
      | lia].
Qed.

Ltac lp_same :=
  let w := fresh "w" in let a := fresh "a" in let w' := fresh "w'" in
  let Hw := fresh "Hw" in let H := fresh "H" in
  intros w a w' Hw H; destruct Hw as (? & ? & ? & ?);
  unfold_monad; split_ok H; ok_inv H; bool_facts; unfold lp_inv; simpl;
  repeat split; auto; lia.

Lemma fundMortgage_lp c b am : preserves lp_inv (fundMortgage c b am).
Proof. unfold fundMortgage, set_pool_amounts. lp_same. Qed.

Lemma receiveMortgagePayment_lp c pr i :
  0 <= value c -> 0 <= pr -> preserves lp_inv (receiveMortgagePayment c pr i).
Proof. intros Hv Hp. unfold receiveMortgagePayment, set_pool_amounts. lp_same. Qed.

Lemma coverDefault_lp c am : 0 <= am -> preserves lp_inv (coverDefault c am).
Proof. intros Ha. unfold coverDefault, set_pool_amounts. lp_same. Qed.

Lemma authorizeBorrower_lp c b : preserves lp_inv (authorizeBorrower c b).
Proof. unfold authorizeBorrower, set_authorized. lp_same. Qed.

Lemma revokeBorrower_lp c b : preserves lp_inv (revokeBorrower c b).
Proof. unfold revokeBorrower, set_authorized. lp_same. Qed.

Lemma pool_transferOwnership_lp c o : preserves lp_inv (pool_transferOwnership c o).
Proof. unfold pool_transferOwnership. lp_same. Qed.

(** ** Invariants of the pool kept by every transaction

    The manager reaches the pool only through [fundMortgage],
    [receiveMortgagePayment] and [coverDefault]; an invariant of the pool
    storage kept by the pool's entry points is kept by every transaction. *)

Section PoolCalls.
Variable P : World -> Prop.
Hypothesis P_pool : forall w w', pool w = pool w' -> P w -> P w'.
Hypothesis P_deposit : forall c, preserves P (depositLiquidity c).
Hypothesis P_withdraw : forall c s, preserves P (withdrawLiquidity c s).
Hypothesis P_fund : forall c b a, preserves P (fundMortgage c b a).
Hypothesis P_receive : forall c pr i,
  0 <= value c -> 0 <= pr -> preserves P (receiveMortgagePayment c pr i).
Hypothesis P_cover : forall c a, 0 <= a -> preserves P (coverDefault c a).
Hypothesis P_authorize : forall c b, preserves P (authorizeBorrower c b).
Hypothesis P_revoke : forall c b, preserves P (revokeBorrower c b).
Hypothesis P_owner : forall c o, preserves P (pool_transferOwnership c o).

Ltac pres_calls :=
  repeat first
    [ progress cbv beta zeta
    | apply P_fund
    | apply P_receive; simpl; nonneg
    | apply P_cover; nonneg
    | apply pres_bind_chk; let x := fresh "x" in let Hx := fresh "Hx" in intros x Hx
    | apply pres_bind; [ | intro ]
    | apply pres_ret | apply pres_revert | apply pres_require | apply pres_chk
    | apply pres_putMgr; exact P_pool
    | apply pres_putNft; exact P_pool
    | apply pres_emit; exact P_pool
    | apply pres_reader
    | match goal with |- preserves _ (if ?b then _ else _) => destruct b end ].

Lemma exec_pres_calls o : wf_op o -> preserves P (exec o).
Proof.
  intros Hwf. destruct o; simpl in Hwf; unfold exec;
    repeat match goal with H : _ /\ _ |- _ => destruct H end;
    unfold wf_ctx, uint in *;
    try lazymatch goal with
        | |- preserves _ (bind (nonpayable _) _) =>
            apply pres_bind; [unfold nonpayable; apply pres_require | intros []]
        end;
    first [ apply P_deposit | apply P_withdraw | apply P_fund
          | apply P_receive; lia | apply P_cover; lia | apply P_authorize
          | apply P_revoke | apply P_owner | apply pres_ret | idtac ].
  all: unfold applyForMortgage, activateMortgage, getProperty,
         availableLiquidity, makePayment, completeMortgage, checkDefault,
         handleDefault, foreclose, get_insuranceReserve, transferFrom,
         nft_update, listProperty, unlistProperty, setDefaultInterestRate,
         mgr_transferOwnership, mintProperty, approve, setApprovalForAll,
         nft_transferOwnership, onlyOwner.
  all: pres_calls.
Qed.

Lemma reachable_pres_calls w :
  (forall d rej, P (deployed d rej)) -> reachable w -> P w.
Proof.
  intros H0. induction 1 as [d rej|w o u w' _ IH Hwf He]; [apply H0|].
  exact (exec_pres_calls o Hwf w u w' IH He).
Qed.
End PoolCalls.

Lemma reachable_lp_inv w : reachable w -> lp_inv w.
Proof.
  apply (reachable_pres_calls lp_inv lp_inv_pool depositLiquidity_lp
           withdrawLiquidity_lp fundMortgage_lp receiveMortgagePayment_lp
           coverDefault_lp authorizeBorrower_lp revokeBorrower_lp
           pool_transferOwnership_lp).
  intros d rej. unfold lp_inv. simpl. repeat split; try lia.
  intros l _. induction l; simpl; lia.
Qed.

Lemma reachable_pool_inv w : reachable w -> pool_inv w.
Proof.
  apply (reachable_pres_calls pool_inv pool_inv_pool depositLiquidity_inv
           withdrawLiquidity_inv fundMortgage_inv receiveMortgagePayment_inv
           coverDefault_inv authorizeBorrower_inv revokeBorrower_inv
           pool_transferOwnership_inv).
  intros d rej. unfold pool_inv. simpl. lia.
Qed.

Lemma lp_inv_pos w : lp_inv w ->
  totalShares (pool w) = 0 \/ 0 < totalLiquidity (pool w).
Proof.
  intros Hw. pose proof (lp_inv_shares w Hw) as [HS0 _]. destruct Hw as (_ & HSL & _).
  destruct (Z.eq_dec (totalShares (pool w)) 0); [left|right; apply HSL]; lia.
Qed.

Ltac orb_facts :=
  repeat match goal with
  | E : (_ || _) = false |- _ => apply orb_false_iff in E; destruct E
  | E : (_ || _) = true |- _ => apply orb_true_iff in E; destruct E
  end; bool_facts.


(** ** Extras: the liquidity providers' claims *)



(** In every reachable world the pool never divides by zero: a deposit,
    a withdrawal and [getShareValue] never fail with the division-by-zero
    panic, and [availableLiquidity] always returns
    [totalLiquidity - activeMortgages] without reverting. *)
Theorem pool_no_division_by_zero (w : World) :
  reachable w ->
  (forall c, depositLiquidity c w <> Err (Panic 18)) /\
  (forall c s, withdrawLiquidity c s w <> Err (Panic 18)) /\
  (forall a, getShareValue a w <> Err (Panic 18)) /\
  availableLiquidity w =
    Ok (totalLiquidity (pool w) - activeMortgages (pool w), w).
Proof.
  intros Hr. pose proof (reachable_lp_inv w Hr) as Hinv.
  pose proof (lp_inv_shares w Hinv) as [HS0 HlpS].
  pose proof (lp_inv_pos w Hinv) as HLp.
  pose proof (reachable_pool_inv w Hr) as Hp. unfold pool_inv in Hp.
  split; [|split; [|split]].
  - intros c H. unfold depositLiquidity in H. unfold_monad.
    split_ok H; bool_facts; lia.
  - intros c s H. unfold withdrawLiquidity in H. unfold_monad.
    split_ok H; bool_facts. specialize (HlpS (sender c)). lia.
  - intros a H. unfold getShareValue in H. unfold_monad.
    split_ok H; orb_facts; lia.
  - unfold availableLiquidity. unfold_monad.
    destruct (activeMortgages (pool w) <=? totalLiquidity (pool w)) eqn:E;
      bool_facts; [reflexivity|lia].
Qed.

Lemma pool_no_division_by_zero_witness :
  reachable loan_world /\
  availableLiquidity loan_world =
    Ok (totalLiquidity (pool loan_world) - activeMortgages (pool loan_world), loan_world).
Proof.
  split; [exact loan_world_reachable|].
  exact (proj2 (proj2 (proj2 (pool_no_division_by_zero _ loan_world_reachable)))).
Defined.

(** A deposit followed by the withdrawal of exactly the shares it minted,
    by the same provider, never pays out more than was deposited when
    shares were already outstanding.  In a pool with no shares
    outstanding it pays out the whole pool, including liquidity left there
    before the deposit. *)
Theorem deposit_withdraw_roundtrip (c c' : Ctx) (w w1 w2 : World) (u1 u2 : unit) :
  reachable w ->
  depositLiquidity c w = Ok (u1, w1) ->
  sender c' = sender c ->
  withdrawLiquidity c' (totalShares (pool w1) - totalShares (pool w)) w1 = Ok (u2, w2) ->
  (0 < totalShares (pool w) -> totalLiquidity (pool w) <= totalLiquidity (pool w2)) /\
  (totalShares (pool w) = 0 -> totalLiquidity (pool w2) = 0).
Proof.
  intros Hr H1 Hs H2. pose proof (reachable_lp_inv w Hr) as Hinv.
  pose proof (lp_inv_pos w Hinv) as HLp.
  unfold depositLiquidity in H1. unfold_monad. split_ok H1; ok_inv H1; bool_facts.
  all: unfold withdrawLiquidity in H2; unfold_monad; simpl in H2; rewrite Hs in H2;
    split_ok H2; ok_inv H2; bool_facts; simpl.
  all: split; intros; try lia.
  - (* no shares outstanding: the payout is the whole pool *)
    replace (totalShares (pool w) + value c - totalShares (pool w)) with (value c)
      in * by lia.
    match goal with E : totalShares (pool w) = 0 |- _ => rewrite E in * end.
    rewrite Z.add_0_l, Z.mul_comm, Z.div_mul by lia. lia.
  - (* shares outstanding: the payout is at most the deposit *)
    destruct HLp as [|HL]; [lia|].
    set (S := totalShares (pool w)) in *. set (L := totalLiquidity (pool w)) in *.
    set (sh := value c * S / L) in *.
    replace (S + sh - S) with sh in * by lia.
    assert (Hsh : L * sh <= value c * S) by (apply Z.mul_div_le; exact HL).
    assert (Hsh0 : 0 <= sh) by (apply Z.div_pos; nia).
    cut (sh * (L + value c) / (S + sh) <= value c); [lia|].
    apply Z.div_le_upper_bound; [lia|nia].
Qed.

Lemma funded_world_reachable : reachable (funded_world 100).
Proof. unfold funded_world. apply reachable_run; [apply reach_deployed|]. wf_ops. Qed.

(** A second provider deposits 50 into [funded_world 100] and withdraws
    the 50 shares minted. *)
Definition LP2 : Z := 22.

Lemma deposit_withdraw_roundtrip_witness :
  let w := funded_world 100 in
  let c := mkCtx LP2 50 2 in
  let c' := mkCtx LP2 0 3 in
  let w1 := run [OpDepositLiquidity c] w in
  let w2 := run [OpWithdrawLiquidity c' 50] w1 in
  reachable w /\ depositLiquidity c w = Ok (tt, w1) /\
  withdrawLiquidity c' (totalShares (pool w1) - totalShares (pool w)) w1 = Ok (tt, w2) /\
  0 < totalShares (pool w) /\
  totalLiquidity (pool w) <= totalLiquidity (pool w2).
Proof.
  intros w c c' w1 w2.
  assert (H1 : depositLiquidity c w = Ok (tt, w1)) by (vm_compute; reflexivity).
  assert (H2 : withdrawLiquidity c' (totalShares (pool w1) - totalShares (pool w)) w1
               = Ok (tt, w2)) by (vm_compute; reflexivity).
  assert (HS : 0 < totalShares (pool w)) by (vm_compute; reflexivity).
  split; [exact funded_world_reachable|]. split; [exact H1|]. split; [exact H2|].
  split; [exact HS|].
  exact (proj1 (deposit_withdraw_roundtrip c c' w w1 w2 tt tt funded_world_reachable
                  H1 eq_refl H2) HS).
Defined.

(** ** The manager's bookkeeping *)

(** What a successful [applyForMortgage] does to the manager's counters. *)
Lemma applyForMortgage_mgr c id d w u w' :
  applyForMortgage c id d w = Ok (u, w') ->
  totalActiveMortgages (mgr w') = totalActiveMortgages (mgr w) + 1 /\
  borrowerMortgages (mgr w') =
    upd (borrowerMortgages (mgr w)) (sender c)
        (borrowerMortgages (mgr w) (sender c) ++ [id]) /\
  defaultInterestRateBPS (mgr w') = defaultInterestRateBPS (mgr w) /\
  interestRateBPS (mortgages (mgr w') id) = defaultInterestRateBPS (mgr w).
Proof.
  intros H. unfold applyForMortgage, activateMortgage, getProperty,
    availableLiquidity, fundMortgage, transferFrom, nft_update,
    unlistProperty, set_mortgage, set_totalActive, with_status,
    set_nft_props, set_pool_amounts, mgr_ctx in *.
  unfold_monad. split_ok H.
  all: kill_refl.
  all: ok_inv H; simpl; unfold upd; rewrite ?Z.eqb_refl; bool_facts.
  all: repeat split; simpl; try lia; reflexivity.
Qed.

(** What a successful [makePayment] does to the manager's counters. *)
Lemma makePayment_mgr c id w u w' :
  makePayment c id w = Ok (u, w') ->
  borrowerMortgages (mgr w') = borrowerMortgages (mgr w) /\
  defaultInterestRateBPS (mgr w') = defaultInterestRateBPS (mgr w) /\
  ((status (mortgages (mgr w') id) = PaidOff /\
    totalActiveMortgages (mgr w') = totalActiveMortgages (mgr w) - 1) \/
   (status (mortgages (mgr w') id) = Active /\
    totalActiveMortgages (mgr w') = totalActiveMortgages (mgr w))).
Proof.
  intros H. unfold makePayment, receiveMortgagePayment, completeMortgage,
    set_mortgage, set_totalActive, set_pool_amounts, mgr_ctx in *.
  unfold_monad. split_ok H.
  all: ok_inv H; status_facts; simpl; unfold upd; rewrite ?Z.eqb_refl; simpl.
  all: split; [reflexivity|]; split; [reflexivity|].
  all: first [left; split; reflexivity | right; split; [assumption|reflexivity]].
Qed.

(** What a successful [checkDefault] does to the manager's storage. *)
Lemma checkDefault_mgr c id w u w' :
  checkDefault c id w = Ok (u, w') ->
  w' = w \/
  (mortgages (mgr w') id = with_status (mortgages (mgr w) id) Foreclosed /\
   totalActiveMortgages (mgr w') = totalActiveMortgages (mgr w) - 1 /\
   borrowerMortgages (mgr w') = borrowerMortgages (mgr w) /\
   defaultInterestRateBPS (mgr w') = defaultInterestRateBPS (mgr w)).
Proof.
  intros H. unfold checkDefault, handleDefault, foreclose, coverDefault,
    get_insuranceReserve, transferFrom, nft_update, listProperty,
    set_mortgage, set_totalActive, with_status, set_nft_props,
    set_pool_amounts, mgr_ctx in *.
  unfold_monad. split_ok H.
  all: kill_refl.
  all: ok_inv H; first [left; reflexivity | right].
  all: simpl; unfold upd; rewrite ?Z.eqb_refl; repeat split; reflexivity.
Qed.

(** The other transactions leave the loans and the counters alone; only
    [setDefaultInterestRate] changes the default rate, within its bound. *)
Lemma exec_frame_mgr o w u w' :
  wf_op o -> loan_op o = false -> exec o w = Ok (u, w') ->
  mortgages (mgr w') = mortgages (mgr w) /\
  borrowerMortgages (mgr w') = borrowerMortgages (mgr w) /\
  totalActiveMortgages (mgr w') = totalActiveMortgages (mgr w) /\
  (defaultInterestRateBPS (mgr w') = defaultInterestRateBPS (mgr w) \/
   0 <= defaultInterestRateBPS (mgr w') <= 2000).
Proof.
  intros Hwf Hl H. destruct o; try discriminate Hl; unfold exec in H;
    simpl in Hwf; unfold wf_ctx, uint in Hwf;
    unfold depositLiquidity, withdrawLiquidity, fundMortgage,
      receiveMortgagePayment, coverDefault, authorizeBorrower, revokeBorrower,
      pool_transferOwnership, setDefaultInterestRate, mgr_transferOwnership,
      mintProperty, listProperty, unlistProperty, transferFrom, approve,
      setApprovalForAll, nft_transferOwnership, nft_update, set_nft_props,
      set_pool_amounts, set_authorized in H;
    unfold_monad; split_ok H; ok_inv H; bool_facts; simpl;
    repeat split; first [left; reflexivity | right; lia].
Qed.

Lemma loan_status_not_none o w u w' j :
  exec o w = Ok (u, w') ->
  status (mortgages (mgr w) j) <> None -> status (mortgages (mgr w') j) <> None.
Proof.
  intros H Hj. destruct (loan_op o) eqn:Hl.
  2: { rewrite (exec_frame_mortgages o w u w' Hl H). exact Hj. }
  destruct o; try discriminate Hl; simpl in H.
  - destruct (applyForMortgage_ok _ _ _ _ _ _ H)
      as (_ & _ & _ & _ & _ & _ & _ & _ & _ & _ & _ & Hst & Hoth).
    destruct (Z.eq_dec j id) as [->|Hne]; [rewrite Hst; discriminate|].
    rewrite (Hoth j Hne). exact Hj.
  - pose proof (makePayment_ok _ _ _ _ _ H) as Hm. simpl in Hm.
    destruct Hm as (_ & _ & _ & _ & _ & _ & _ & _ & _ & _ & _ & _ & _ & Hoth).
    destruct (Z.eq_dec j id) as [->|Hne].
    + destruct (makePayment_mgr _ _ _ _ _ H) as (_ & _ & [[Hs _]|[Hs _]]);
        rewrite Hs; discriminate.
    + rewrite (Hoth j Hne). exact Hj.
  - destruct (exec_nonpayable _ _ _ _ H) as [H'|[e He]]; [|discriminate He].
    symmetry in H'.
    destruct (checkDefault_ok _ _ _ _ _ H') as (_ & _ & _ & _ & Hoth).
    destruct (checkDefault_mgr _ _ _ _ _ H') as [->|(Hmo & _)]; [exact Hj|].
    destruct (Z.eq_dec j id) as [->|Hne]; [rewrite Hmo; discriminate|].
    rewrite (Hoth j Hne). exact Hj.
Qed.

(** ** Extras: the loans *)

(** Once a property has a loan record (any status but [None]), no sequence
    of transactions ever resets it to [None], so no application on that
    property can ever succeed again: a property that was paid off or
    foreclosed (and relisted) is never lent against a second time. *)
Theorem one_loan_per_property (w : World) (id : Z) :
  status (mortgages (mgr w) id) <> None ->
  forall ops, status (mortgages (mgr (run ops w)) id) <> None /\
    forall c d, exists e, applyForMortgage c id d (run ops w) = Err e.
Proof.
  intros Hs ops. revert w Hs. induction ops as [|o ops IH]; intros w Hs.
  - split; [exact Hs|]. intros c d.
    destruct (applyForMortgage c id d w) as [[u w']|e] eqn:E; [|eauto].
    exfalso. pose proof (applyForMortgage_ok _ _ _ _ _ _ E) as Ha. simpl in Ha.
    destruct Ha as (_ & _ & Hn & _). exact (Hs Hn).
  - simpl. destruct (exec o w) as [[u w']|e] eqn:E; apply IH; [|exact Hs].
    exact (loan_status_not_none o w u w' id E Hs).
Qed.

Lemma one_loan_per_property_witness :
  status (mortgages (mgr loan_world) 0) <> None /\
  exists e, applyForMortgage (mkCtx LP1 50 5) 0 12
              (run [OpMakePayment (mkCtx BORROWER1 7 100) 0] loan_world) = Err e.
Proof.
  assert (Hs : status (mortgages (mgr loan_world) 0) <> None)
    by (vm_compute; discriminate).
  split; [exact Hs|].
  exact (proj2 (one_loan_per_property loan_world 0 Hs
                  [OpMakePayment (mkCtx BORROWER1 7 100) 0]) _ _).
Defined.

Lemma remove_nodup (x : Z) l :
  NoDup l -> In x l ->
  NoDup (List.remove Z.eq_dec x l) /\ S (List.length (List.remove Z.eq_dec x l)) = List.length l.
Proof.
  induction l as [|a l IH]; intros Hd Hi; [contradiction|].
  inversion Hd as [|? ? Ha Hd']; subst. simpl. destruct (Z.eq_dec x a) as [->|Hne].
  - rewrite notin_remove by exact Ha. split; [exact Hd'|reflexivity].
  - destruct Hi as [->|Hi]; [congruence|]. destruct (IH Hd' Hi) as [H1 H2].
    split; [|simpl; lia]. constructor; [|exact H1].
    intros Hin. apply in_remove in Hin. tauto.
Qed.

Definition active_count (w : World) (l : list Z) : Prop :=
  NoDup l /\ (forall j, In j l <-> status (mortgages (mgr w) j) = Active) /\
  Z.of_nat (List.length l) = totalActiveMortgages (mgr w).

Lemma active_keep w w' l :
  active_count w l ->
  (forall j, status (mortgages (mgr w') j) = Active <->
             status (mortgages (mgr w) j) = Active) ->
  totalActiveMortgages (mgr w') = totalActiveMortgages (mgr w) ->
  active_count w' l.
Proof.
  intros (Hd & Hi & Hn) Hs Ht. split; [exact Hd|]. split; [|lia].
  intros j. rewrite Hs. apply Hi.
Qed.

Lemma active_add w w' l id :
  active_count w l ->
  status (mortgages (mgr w) id) <> Active ->
  status (mortgages (mgr w') id) = Active ->
  (forall j, j <> id -> mortgages (mgr w') j = mortgages (mgr w) j) ->
  totalActiveMortgages (mgr w') = totalActiveMortgages (mgr w) + 1 ->
  active_count w' (id :: l).
Proof.
  intros (Hd & Hi & Hn) Ho Hs Hoth Ht. split; [|split].
  - constructor; [|exact Hd]. rewrite Hi. exact Ho.
  - intros j. destruct (Z.eq_dec j id) as [->|Hne].
    + split; [intros _; exact Hs|intros _; left; reflexivity].
    + rewrite (Hoth j Hne), <- Hi. simpl. split; [intros [E|E]; [congruence|exact E]|auto].
  - simpl List.length. lia.
Qed.

Lemma active_remove w w' l id :
  active_count w l ->
  status (mortgages (mgr w) id) = Active ->
  status (mortgages (mgr w') id) <> Active ->
  (forall j, j <> id -> mortgages (mgr w') j = mortgages (mgr w) j) ->
  totalActiveMortgages (mgr w') = totalActiveMortgages (mgr w) - 1 ->
  active_count w' (List.remove Z.eq_dec id l).
Proof.
  intros (Hd & Hi & Hn) Ho Hs Hoth Ht.
  assert (Hin : In id l) by (apply Hi; exact Ho).
  destruct (remove_nodup id l Hd Hin) as [Hd' Hl]. split; [exact Hd'|]. split.
  - intros j. destruct (Z.eq_dec j id) as [->|Hne].
    + split; [intros H; exfalso; exact (remove_In _ _ _ H)|intros H; contradiction].
    + rewrite (Hoth j Hne), <- Hi. split.
      * intros H. exact (proj1 (in_remove _ _ _ _ H)).
      * intros H. apply in_in_remove; assumption.
  - rewrite <- Hl in Hn. rewrite Nat2Z.inj_succ in Hn. lia.
Qed.

Lemma exec_active_count o w u w' :
  wf_op o -> (exists l, active_count w l) -> exec o w = Ok (u, w') ->
  exists l, active_count w' l.
Proof.
  intros Hwf [l Hl] H. destruct (loan_op o) eqn:Hlo.
  2: { destruct (exec_frame_mgr o w u w' Hwf Hlo H) as (Hm & _ & Ht & _).
       exists l. apply (active_keep w w' l Hl); [|exact Ht].
       intros j. rewrite Hm. reflexivity. }
  destruct o; try discriminate Hlo; simpl in H.
  - destruct (applyForMortgage_ok _ _ _ _ _ _ H)
      as (_ & _ & Hn & _ & _ & _ & _ & _ & _ & _ & _ & Hst & Hoth).
    destruct (applyForMortgage_mgr _ _ _ _ _ _ H) as (Ht & _).
    exists (id :: l). apply (active_add w w' l id Hl); auto.
    rewrite Hn. discriminate.
  - pose proof (makePayment_ok _ _ _ _ _ H) as Hm. simpl in Hm.
    destruct Hm as (Hst & _ & _ & _ & _ & _ & _ & _ & _ & _ & _ & _ & _ & Hoth).
    destruct (makePayment_mgr _ _ _ _ _ H) as (_ & _ & [[Hs Ht]|[Hs Ht]]).
    + exists (List.remove Z.eq_dec id l). apply (active_remove w w' l id Hl); auto.
      rewrite Hs. discriminate.
    + exists l. apply (active_keep w w' l Hl); [|exact Ht].
      intros j. destruct (Z.eq_dec j id) as [->|Hne].
      * rewrite Hs, Hst. tauto.
      * rewrite (Hoth j Hne). tauto.
  - destruct (exec_nonpayable _ _ _ _ H) as [H'|[e He]]; [|discriminate He].
    symmetry in H'.
    destruct (checkDefault_ok _ _ _ _ _ H') as (Hst & _ & _ & _ & Hoth).
    destruct (checkDefault_mgr _ _ _ _ _ H') as [->|(Hmo & Ht & _)]; [eauto|].
    exists (List.remove Z.eq_dec id l). apply (active_remove w w' l id Hl); auto.
    rewrite Hmo. discriminate.
Qed.

(** [totalActiveMortgages] is exactly the number of loans in the [Active]
    status, in every reachable world (so the decrements on completion and
    on default never underflow). *)
Theorem totalActiveMortgages_counts (w : World) :
  reachable w ->
  exists l, NoDup l /\
    (forall j, In j l <-> status (mortgages (mgr w) j) = Active) /\
    Z.of_nat (List.length l) = totalActiveMortgages (mgr w).
Proof.
  intros Hr. cut (exists l, active_count w l); [intros [l Hl]; exists l; exact Hl|].
  induction Hr as [d rej|w o u w' _ IH Hwf He].
  - exists []. split; [constructor|]. split; [|reflexivity].
    intros j. simpl. split; [intros []|discriminate].
  - exact (exec_active_count o w u w' Hwf IH He).
Qed.

Lemma totalActiveMortgages_counts_witness :
  reachable loan_world /\
  exists l, NoDup l /\
    (forall j, In j l <-> status (mortgages (mgr loan_world) j) = Active) /\
    Z.of_nat (List.length l) = totalActiveMortgages (mgr loan_world).
Proof.
  split; [exact loan_world_reachable|].
  exact (totalActiveMortgages_counts loan_world loan_world_reachable).
Defined.

Definition own_inv (w : World) : Prop :=
  forall j, let mo := mortgages (mgr w) j in
  0 <= ownershipSharesBPS mo <= BASIS_POINTS /\
  (status mo = PaidOff -> ownershipSharesBPS mo = BASIS_POINTS).

Lemma exec_own_inv o w u w' :
  wf_op o -> loans_inv w -> own_inv w -> exec o w = Ok (u, w') -> own_inv w'.
Proof.
  intros Hwf Hl Hinv H. destruct (loan_op o) eqn:Hlo.
  2: { intros j. rewrite (exec_frame_mortgages o w u w' Hlo H). apply Hinv. }
  destruct o; try discriminate Hlo; simpl in Hwf; unfold wf_ctx, uint in Hwf;
    simpl in H.
  - destruct (applyForMortgage_ok _ _ _ _ _ _ H)
      as (_ & _ & _ & _ & Hle & Hpv & Hpv' & _ & _ & _ & Hown & Hst & Hoth).
    intros j. destruct (Z.eq_dec j id) as [->|Hj]; [|rewrite (Hoth j Hj); apply Hinv].
    cbv zeta. rewrite Hown, Hst. split; [|discriminate].
    split; [apply Z.div_pos; unfold BASIS_POINTS; lia|].
    apply Z.div_le_upper_bound; unfold BASIS_POINTS; lia.
  - pose proof (makePayment_ok _ _ _ _ _ H) as Hm. simpl in Hm.
    destruct Hm as (Hst & _ & _ & _ & _ & _ & _ & _ & _ & _ & _ & _ & Hmo & Hoth).
    intros j. destruct (Z.eq_dec j id) as [->|Hj]; [|rewrite (Hoth j Hj); apply Hinv].
    destruct (Hl id Hst) as [Hpv Hown]. destruct (Hinv id) as [Hb _].
    cbv zeta in Hb. rewrite Hown in Hb.
    assert (Hdiv : totalPaid (mortgages (mgr w) id) * BASIS_POINTS /
                     propertyValue (mortgages (mgr w) id) <=
                   (totalPaid (mortgages (mgr w) id) + value c) * BASIS_POINTS /
                     propertyValue (mortgages (mgr w) id)).
    { apply Z.div_le_mono; [exact Hpv|unfold BASIS_POINTS in *; lia]. }
    cbv zeta. rewrite Hmo. destruct (payment_done _ _ _); simpl.
    + unfold BASIS_POINTS in *. split; [lia|reflexivity].
    + split; [lia|discriminate].
  - destruct (exec_nonpayable _ _ _ _ H) as [H'|[e He]]; [|discriminate He].
    symmetry in H'.
    destruct (checkDefault_ok _ _ _ _ _ H') as (_ & _ & _ & _ & Hoth).
    destruct (checkDefault_mgr _ _ _ _ _ H') as [->|(Hmo & _)]; [exact Hinv|].
    intros j. destruct (Z.eq_dec j id) as [->|Hj]; [|rewrite (Hoth j Hj); apply Hinv].
    destruct (Hinv id) as [Hb _]. cbv zeta. rewrite Hmo. simpl.
    split; [exact Hb|discriminate].
Qed.

Lemma reachable_own_inv w : reachable w -> own_inv w.
Proof.
  induction 1 as [d rej|w o u w' Hr IH Hwf He].
  - intros j. simpl. unfold BASIS_POINTS. split; [lia|discriminate].
  - exact (exec_own_inv o w u w' Hwf (reachable_loans_inv w Hr) IH He).
Qed.

(** In every reachable world [getOwnershipPercentage] never reverts and
    returns a percentage between 0 and 100, and exactly 100 for a paid-off
    loan. *)
Theorem ownershipPercentage_bounded (w : World) :
  reachable w ->
  forall id, exists pct, getOwnershipPercentage id w = Ok (pct, w) /\
    0 <= pct <= 100 /\
    (status (mortgages (mgr w) id) = PaidOff -> pct = 100).
Proof.
  intros Hr id. destruct (reachable_own_inv w Hr id) as [Hb Hp]. cbv zeta in *.
  exists (ownershipSharesBPS (mortgages (mgr w) id) / 100).
  unfold getOwnershipPercentage. unfold_monad. simpl. split; [reflexivity|].
  unfold BASIS_POINTS in *. split.
  - split; [apply Z.div_pos; lia|apply Z.div_le_upper_bound; lia].
  - intros Hs. rewrite (Hp Hs). reflexivity.
Qed.

Lemma ownershipPercentage_bounded_witness :
  reachable loan_world /\
  exists pct, getOwnershipPercentage 0 loan_world = Ok (pct, loan_world) /\
    0 <= pct <= 100 /\
    (status (mortgages (mgr loan_world) 0) = PaidOff -> pct = 100).
Proof.
  split; [exact loan_world_reachable|].
  exact (ownershipPercentage_bounded loan_world loan_world_reachable 0).
Defined.

Definition rate_inv (w : World) : Prop :=
  0 <= defaultInterestRateBPS (mgr w) <= 2000 /\
  forall j, 0 <= interestRateBPS (mortgages (mgr w) j) <= 2000.

Lemma exec_rate_inv o w u w' :
  wf_op o -> rate_inv w -> exec o w = Ok (u, w') -> rate_inv w'.
Proof.
  intros Hwf [Hd Hj] H. destruct (loan_op o) eqn:Hlo.
  2: { destruct (exec_frame_mgr o w u w' Hwf Hlo H) as (Hm & _ & _ & Hr).
       split; [destruct Hr as [->|Hr]; assumption|]. rewrite Hm. exact Hj. }
  destruct o; try discriminate Hlo; simpl in H.
  - destruct (applyForMortgage_ok _ _ _ _ _ _ H) as (_ & _ & _ & _ & _ & _ & _ & _ & _ & _ & _ & _ & Hoth).
    destruct (applyForMortgage_mgr _ _ _ _ _ _ H) as (_ & _ & Hr & Hi).
    split; [rewrite Hr; exact Hd|]. intros j.
    destruct (Z.eq_dec j id) as [->|Hne]; [rewrite Hi; exact Hd|].
    rewrite (Hoth j Hne). apply Hj.
  - pose proof (makePayment_ok _ _ _ _ _ H) as Hm. simpl in Hm.
    destruct Hm as (_ & _ & _ & _ & _ & _ & _ & _ & _ & _ & _ & _ & Hmo & Hoth).
    destruct (makePayment_mgr _ _ _ _ _ H) as (_ & Hr & _).
    split; [rewrite Hr; exact Hd|]. intros j.
    destruct (Z.eq_dec j id) as [->|Hne]; [rewrite Hmo; apply Hj|].
    rewrite (Hoth j Hne). apply Hj.
  - destruct (exec_nonpayable _ _ _ _ H) as [H'|[e He]]; [|discriminate He].
    symmetry in H'.
    destruct (checkDefault_ok _ _ _ _ _ H') as (_ & _ & _ & _ & Hoth).
    destruct (checkDefault_mgr _ _ _ _ _ H') as [->|(Hmo & _ & _ & Hr)];
      [split; assumption|].
    split; [rewrite Hr; exact Hd|]. intros j.
    destruct (Z.eq_dec j id) as [->|Hne]; [rewrite Hmo; apply Hj|].
    rewrite (Hoth j Hne). apply Hj.
Qed.

(** In every reachable world the default interest rate, and the rate of
    every loan, is at most 2000 basis points (20% a year): the deployment
    sets 500, [setDefaultInterestRate] refuses more than 2000, and a loan
    keeps the rate it was granted at application. *)
Theorem interest_rates_bounded (w : World) :
  reachable w ->
  0 <= defaultInterestRateBPS (mgr w) <= 2000 /\
  forall id, 0 <= interestRateBPS (mortgages (mgr w) id) <= 2000.
Proof.
  induction 1 as [d rej|w o u w' _ IH Hwf He].
  - simpl. split; [lia|intros; simpl; lia].
  - exact (exec_rate_inv o w u w' Hwf IH He).
Qed.

Lemma interest_rates_bounded_witness :
  reachable loan_world /\
  0 <= interestRateBPS (mortgages (mgr loan_world) 0) <= 2000.
Proof.
  split; [exact loan_world_reachable|].
  exact (proj2 (interest_rates_bounded loan_world loan_world_reachable) 0).
Defined.





(** ** Extras: overdue payments *)

(** [isPaymentOverdue] reports [false] on every loan that is not
    [Active]; while it reports [false] on an [Active] loan, the amount due
    to [makePayment] at that time is the plain monthly payment, without
    late fee; and when [checkDefault] may foreclose (more than
    [DEFAULT_PERIOD] since the last payment) it reports [true]. *)
Theorem isPaymentOverdue_latefee (now id : Z) (w : World) :
  let mo := mortgages (mgr w) id in
  (status mo <> Active -> isPaymentOverdue now id w = Ok (false, w)) /\
  (isPaymentOverdue now id w = Ok (false, w) -> status mo = Active ->
     expectedPaymentOf mo now = Ok (monthlyPayment mo)) /\
  (status mo = Active -> DEFAULT_PERIOD < now - lastPaymentTimestamp mo ->
     isPaymentOverdue now id w = Ok (true, w)).
Proof.
  cbv zeta. unfold isPaymentOverdue. unfold_monad. simpl.
  split; [|split].
  - intros Hs. destruct (status (mortgages (mgr w) id)); try reflexivity.
    congruence.
  - intros H Hs. rewrite Hs in H. simpl in H.
    unfold expectedPaymentOf. unfold_monad.
    destruct (lastPaymentTimestamp (mortgages (mgr w) id) <=? now) eqn:E;
      [|discriminate H].
    injection H as H. bool_facts.
    unfold SECONDS_PER_MONTH, GRACE_PERIOD in *. simpl.
    destruct (2592000 + 1296000 <? UINT_MAX1) eqn:E2;
      [|unfold UINT_MAX1 in E2; discriminate E2].
    match goal with |- context [if (?x <? now - ?y) then _ else _] =>
      destruct (x <? now - y) eqn:E3 end; bool_facts; [lia|reflexivity].
  - intros Hs Ht. rewrite Hs. simpl. unfold DEFAULT_PERIOD, SECONDS_PER_MONTH in *.
    destruct (lastPaymentTimestamp (mortgages (mgr w) id) <=? now) eqn:E;
      bool_facts; [|lia].
    destruct (30 * 86400 <? now - lastPaymentTimestamp (mortgages (mgr w) id))
      eqn:E2; bool_facts; [reflexivity|lia].
Qed.

(** ** Invariants of the NFT storage kept by the manager and the pool *)

Section NftFrame.
Variable P : World -> Prop.
Hypothesis P_nft : forall w w', nft w = nft w' -> P w -> P w'.

Lemma npres_same {A} (m : M A) :
  (forall w a w', m w = Ok (a, w') -> nft w' = nft w) -> preserves P m.
Proof. intros Hm w a w' Hw H. apply (P_nft w); [|exact Hw]. symmetry. eauto. Qed.

Lemma npres_putPool p : preserves P (putPool p).
Proof. apply npres_same. intros w a w' H. injection H as _ <-. reflexivity. Qed.

Lemma npres_putMgr m : preserves P (putMgr m).
Proof. apply npres_same. intros w a w' H. injection H as _ <-. reflexivity. Qed.

Lemma npres_emit e : preserves P (emit e).
Proof. apply npres_same. intros w a w' H. injection H as _ <-. reflexivity. Qed.
End NftFrame.

Ltac nft_frame :=
  let w := fresh "w" in let a := fresh "a" in let w' := fresh "w'" in
  let H := fresh "H" in
  apply npres_same; [assumption|]; intros w a w' H;
  unfold_monad; split_ok H; ok_inv H; reflexivity.

Section NftCalls.
Variable P : World -> Prop.
Hypothesis P_nft : forall w w', nft w = nft w' -> P w -> P w'.
Hypothesis P_transfer : forall c f t id,
  sender c = MANAGER -> preserves P (transferFrom c f t id).
Hypothesis P_list : forall c id, sender c = MANAGER -> preserves P (listProperty c id).
Hypothesis P_unlist : forall c id,
  sender c = MANAGER -> preserves P (unlistProperty c id).

Lemma ncalls_deposit c : preserves P (depositLiquidity c).
Proof. unfold depositLiquidity. nft_frame. Qed.

Lemma ncalls_withdraw c s : preserves P (withdrawLiquidity c s).
Proof. unfold withdrawLiquidity. nft_frame. Qed.

Lemma ncalls_fund c b a : preserves P (fundMortgage c b a).
Proof. unfold fundMortgage. nft_frame. Qed.

Lemma ncalls_receive c pr i : preserves P (receiveMortgagePayment c pr i).
Proof. unfold receiveMortgagePayment. nft_frame. Qed.

Lemma ncalls_cover c a : preserves P (coverDefault c a).
Proof. unfold coverDefault. nft_frame. Qed.

Ltac pres_ncalls :=
  repeat first
    [ progress cbv beta zeta
    | apply P_transfer; reflexivity
    | apply P_list; reflexivity
    | apply P_unlist; reflexivity
    | apply ncalls_fund | apply ncalls_receive | apply ncalls_cover
    | apply pres_bind_chk; let x := fresh "x" in let Hx := fresh "Hx" in intros x Hx
    | apply pres_bind; [ | intro ]
    | apply pres_ret | apply pres_revert | apply pres_require | apply pres_chk
    | apply npres_putMgr; exact P_nft
    | apply npres_putPool; exact P_nft
    | apply npres_emit; exact P_nft
    | apply pres_reader
    | match goal with |- preserves _ (if ?b then _ else _) => destruct b end ].

Lemma ncalls_apply c id d : preserves P (applyForMortgage c id d).
Proof.
  unfold applyForMortgage, activateMortgage, getProperty, availableLiquidity.
  pres_ncalls.
Qed.

Lemma ncalls_makePayment c id : preserves P (makePayment c id).
Proof. unfold makePayment, completeMortgage. pres_ncalls. Qed.

Lemma ncalls_checkDefault c id : preserves P (checkDefault c id).
Proof.
  unfold checkDefault, handleDefault, foreclose, get_insuranceReserve.
  pres_ncalls.
Qed.

(** Every transaction other than the direct calls to PropertyNFT keeps
    [P]. *)
Lemma exec_ncalls o :
  match o with
  | OpMintProperty _ _ _ _ | OpListProperty _ _ | OpUnlistProperty _ _
  | OpTransferFrom _ _ _ _ | OpApprove _ _ _ | OpSetApprovalForAll _ _ _
  | OpNftTransferOwnership _ _ => False
  | _ => True
  end -> preserves P (exec o).
Proof.
  intros Ho. destruct o; try contradiction Ho; unfold exec;
    try lazymatch goal with
        | |- preserves _ (bind (nonpayable _) _) =>
            apply pres_bind; [unfold nonpayable; apply pres_require | intros []]
        end;
    first [ apply ncalls_deposit | apply ncalls_withdraw | apply ncalls_fund
          | apply ncalls_receive | apply ncalls_cover | apply ncalls_apply
          | apply ncalls_makePayment | apply ncalls_checkDefault
          | apply pres_ret | idtac ].
  all: unfold authorizeBorrower, revokeBorrower, pool_transferOwnership,
         setDefaultInterestRate, mgr_transferOwnership, set_authorized;
       nft_frame.
Qed.
End NftCalls.

(** ** The NFT tokens *)

Definition nft_inv (w : World) : Prop :=
  let n := nft w in
  0 <= tokenIdCounter n /\
  (forall j, owners n j <> 0 <-> 0 <= j < tokenIdCounter n) /\
  (forall j, tokenApprovals n j <> 0 -> owners n j <> 0) /\
  (forall x, operatorApprovals n 0 x = false).

Lemma nft_inv_nft : forall w w', nft w = nft w' -> nft_inv w -> nft_inv w'.
Proof. unfold nft_inv. intros w w' E. rewrite E. auto. Qed.

Ltac andb_facts :=
  repeat match goal with
  | E : (_ && _) = true |- _ => apply andb_true_iff in E; destruct E
  | E : (_ || _) = true |- _ => apply orb_true_iff in E; destruct E
  | E : (_ || _) = false |- _ => apply orb_false_iff in E; destruct E
  end; bool_facts.

Lemma transferFrom_nft_inv c f t id :
  sender c <> 0 -> preserves nft_inv (transferFrom c f t id).
Proof.
  intros Hs w a w' (Hc & Ho & Ht & Hop) H.
  unfold transferFrom, nft_update, isAuthorized in H. unfold_monad.
  split_ok H; ok_inv H; andb_facts; unfold nft_inv; simpl.
  all: try match goal with E : operatorApprovals _ _ _ = true |- _ =>
             rewrite Hop in E; discriminate E end.
  all: try match goal with
           | E : operatorApprovals _ ?o _ = true, E' : ?o = 0 |- _ =>
               rewrite E', Hop in E; discriminate E
           end.
  all: try match goal with
           | E : tokenApprovals _ ?i = ?s, E' : owners _ ?i = 0 |- _ =>
               exfalso; apply (Ht i); [rewrite E; assumption|exact E']
           end.
  all: try (exfalso; lia).
  all: assert (Hid : owners (nft w) id <> 0) by lia.
  all: split; [exact Hc|]; split; [|split; [|exact Hop]]; intros j;
    unfold upd; destruct (j =? id) eqn:Ej; bool_facts.
  all: try (subst j; rewrite <- (Ho id); split; intros; assumption).
  all: try apply Ho; try apply Ht.
  all: intros _; assumption.
Qed.

Lemma mintProperty_nft_inv c to v s : preserves nft_inv (mintProperty c to v s).
Proof.
  intros w a w' (Hc & Ho & Ht & Hop) H.
  unfold mintProperty, nft_update, set_nft_props in H. unfold_monad.
  split_ok H; ok_inv H; bool_facts; unfold nft_inv; simpl.
  all: try match goal with E : owners _ (tokenIdCounter _) <> 0 |- _ =>
             apply Ho in E; lia end.
  all: split; [lia|]; split; [|split; [|exact Hop]]; intros j;
    unfold upd; destruct (j =? tokenIdCounter (nft w)) eqn:Ej; bool_facts.
  all: try (subst j; split; intros; [lia|assumption]).
  all: try (rewrite Ho; split; intros; lia).
  all: try (intros _; assumption).
  all: apply Ht.
Qed.

Ltac nft_props :=
  let w := fresh "w" in let a := fresh "a" in let w' := fresh "w'" in
  let Hw := fresh "Hw" in let H := fresh "H" in
  intros w a w' Hw H; destruct Hw as (? & ? & ? & ?);
  unfold_monad; split_ok H; ok_inv H; bool_facts; unfold nft_inv; simpl;
  repeat (split; [assumption|]); assumption.

Lemma listProperty_nft_inv c id : preserves nft_inv (listProperty c id).
Proof. unfold listProperty, set_nft_props. nft_props. Qed.

Lemma unlistProperty_nft_inv c id : preserves nft_inv (unlistProperty c id).
Proof. unfold unlistProperty, set_nft_props. nft_props. Qed.

Lemma nft_transferOwnership_nft_inv c o :
  preserves nft_inv (nft_transferOwnership c o).
Proof. unfold nft_transferOwnership. nft_props. Qed.

Lemma approve_nft_inv c t id : preserves nft_inv (approve c t id).
Proof.
  intros w a w' (Hc & Ho & Ht & Hop) H. unfold approve in H. unfold_monad.
  split_ok H; ok_inv H; bool_facts; unfold nft_inv; simpl.
  split; [exact Hc|]. split; [exact Ho|]. split; [|exact Hop].
  intros j. unfold upd. destruct (j =? id) eqn:Ej; bool_facts;
    [subst j; intros _; assumption|apply Ht].
Qed.

Lemma setApprovalForAll_nft_inv c op b :
  sender c <> 0 -> preserves nft_inv (setApprovalForAll c op b).
Proof.
  intros Hs w a w' (Hc & Ho & Ht & Hop) H. unfold setApprovalForAll in H.
  unfold_monad. split_ok H; ok_inv H; bool_facts; unfold nft_inv; simpl.
  split; [exact Hc|]. split; [exact Ho|]. split; [exact Ht|].
  intros x. unfold upd. destruct (0 =? sender c) eqn:E; bool_facts; [lia|apply Hop].
Qed.

Lemma pres_nonpayable {P : World -> Prop} {A} c (m : M A) :
  preserves P m -> preserves P (nonpayable c;;; m).
Proof.
  intros Hm. apply pres_bind; [unfold nonpayable; apply pres_require|intros []; exact Hm].
Qed.

Lemma exec_nft_inv o : eoa (sender (op_ctx o)) -> preserves nft_inv (exec o).
Proof.
  intros (H0 & _).
  assert (Htr : forall c f t id, sender c = MANAGER ->
                  preserves nft_inv (transferFrom c f t id)).
  { intros c f t id E. apply transferFrom_nft_inv. rewrite E. unfold MANAGER. lia. }
  assert (Hl : forall c id, sender c = MANAGER -> preserves nft_inv (listProperty c id))
    by (intros; apply listProperty_nft_inv).
  assert (Hu : forall c id, sender c = MANAGER -> preserves nft_inv (unlistProperty c id))
    by (intros; apply unlistProperty_nft_inv).
  destruct o; simpl in H0;
    try (apply (exec_ncalls nft_inv nft_inv_nft Htr Hl Hu); exact I);
    unfold exec; apply pres_nonpayable.
  - apply pres_bind; [apply mintProperty_nft_inv|intros; apply pres_ret].
  - apply listProperty_nft_inv.
  - apply unlistProperty_nft_inv.
  - apply transferFrom_nft_inv; exact H0.
  - apply approve_nft_inv.
  - apply setApprovalForAll_nft_inv; exact H0.
  - apply nft_transferOwnership_nft_inv.
Qed.

Lemma steps_pres (P : World -> Prop) w w' :
  (forall o, wf_op o -> eoa (sender (op_ctx o)) -> preserves P (exec o)) ->
  steps w w' -> P w -> P w'.
Proof.
  intros Hp. induction 1 as [w|w o u w1 w2 Hwf He Hx _ IH]; intros Hw; [exact Hw|].
  apply IH. exact (Hp o Hwf He w u w1 Hw Hx).
Qed.

Lemma steps_run ops w :
  Forall (fun o => wf_op o /\ eoa (sender (op_ctx o))) ops -> steps w (run ops w).
Proof.
  revert w. induction ops as [|o ops IH]; intros w Hf; simpl; [apply steps_refl|].
  inversion Hf as [|? ? [Hwf He] Hos]; subst.
  destruct (exec o w) as [[u w1]|e] eqn:E; [|apply IH; exact Hos].
  apply (steps_step w o u w1); auto.
Qed.

(** ** Extras: the property tokens *)

(** In every world reached from a deployment by transactions of external
    accounts, the properties that exist are exactly the token ids below
    [totalProperties()]: [getProperty] returns the stored property for
    each of them and reverts with "Property does not exist" for any other
    id. *)
Theorem getProperty_below_totalProperties (d : Z) (rej : Z -> bool) (w : World) :
  steps (deployed d rej) w ->
  exists n, totalProperties w = Ok (n, w) /\ 0 <= n /\
    forall id, (0 <= id < n -> getProperty id w = Ok (properties (nft w) id, w)) /\
               (~ (0 <= id < n) ->
                getProperty id w = Err (Revert "Property does not exist")).
Proof.
  intros Hs.
  assert (Hinv : nft_inv w).
  { apply (steps_pres nft_inv (deployed d rej) w); [|exact Hs|].
    - intros o _ He. exact (exec_nft_inv o He).
    - unfold nft_inv. simpl. repeat split; intros; lia || reflexivity || idtac.
      all: lia. }
  destruct Hinv as (Hc & Ho & _).
  exists (tokenIdCounter (nft w)). split; [reflexivity|]. split; [exact Hc|].
  intros id. unfold getProperty. unfold_monad. simpl. split.
  - intros Hid. apply Ho in Hid. apply Z.eqb_neq in Hid. rewrite Hid. reflexivity.
  - intros Hid. destruct (owners (nft w) id =? 0) eqn:E; [reflexivity|].
    bool_facts. exfalso. apply Hid, Ho, E.
Qed.

(** The deployment script, followed by nothing else. *)
Definition deployed_world : World :=
  run (deploy_script 100 150 350) (deployed DEPLOYER no_rejects).

Lemma deployed_world_steps : steps (deployed DEPLOYER no_rejects) deployed_world.
Proof.
  apply steps_run. repeat constructor; simpl; unfold wf_ctx, uint, UINT_MAX1,
    DEPLOYER, MANAGER, POOL, PROPERTY_NFT; simpl; lia.
Qed.

Lemma getProperty_below_totalProperties_witness :
  steps (deployed DEPLOYER no_rejects) deployed_world /\
  exists n, totalProperties deployed_world = Ok (n, deployed_world) /\ 0 <= n /\
    forall id, (0 <= id < n ->
                getProperty id deployed_world =
                  Ok (properties (nft deployed_world) id, deployed_world)) /\
               (~ (0 <= id < n) ->
                getProperty id deployed_world = Err (Revert "Property does not exist")).
Proof.
  split; [exact deployed_world_steps|].
  exact (getProperty_below_totalProperties DEPLOYER no_rejects deployed_world
           deployed_world_steps).
Defined.







(** ** Extras: activation and foreclosure move the property token *)

(** A successful application activates the loan at once: the pool lends
    exactly the loan amount ([activeMortgages] grows by it, a
    [MortgageFunded] event is logged), the property token passes from the
    manager to the borrower, and the property is unlisted. *)
Theorem applyForMortgage_transfers (c : Ctx) (id d : Z) (w : World) (u : unit) (w' : World) :
  applyForMortgage c id d w = Ok (u, w') ->
  let loan := loanAmount (mortgages (mgr w') id) in
  owners (nft w) id = MANAGER /\
  owners (nft w') id = sender c /\
  isListed (properties (nft w') id) = false /\
  activeMortgages (pool w') = activeMortgages (pool w) + loan /\
  In (MortgageFunded (sender c) loan) (log w').
Proof.
  intros H. unfold applyForMortgage, activateMortgage, getProperty,
    availableLiquidity, fundMortgage, transferFrom, nft_update,
    unlistProperty, set_mortgage, set_totalActive, with_status,
    set_nft_props, set_pool_amounts, mgr_ctx in *.
  unfold_monad. split_ok H.
  all: kill_refl.
  all: ok_inv H; simpl; unfold upd; rewrite ?Z.eqb_refl; simpl; bool_facts.
  all: repeat split; try lia; try assumption.
  all: repeat (apply in_or_app; first [right; simpl; tauto | left]).
Qed.

Lemma applyForMortgage_transfers_witness :
  let w1 := run [OpApplyForMortgage (mkCtx BORROWER1 20 2) 0 12] (funded_world 100) in
  applyForMortgage (mkCtx BORROWER1 20 2) 0 12 (funded_world 100) = Ok (tt, w1) /\
  owners (nft w1) 0 = BORROWER1.
Proof.
  intros w1.
  assert (H : applyForMortgage (mkCtx BORROWER1 20 2) 0 12 (funded_world 100) =
              Ok (tt, w1)) by (vm_compute; reflexivity).
  split; [exact H|].
  exact (proj1 (proj2 (applyForMortgage_transfers _ _ _ _ _ _ H))).
Defined.

(** A default that goes through takes the property token back from the
    borrower to the manager and lists the property again.  It needs the
    borrower to still hold the token: once the borrower has passed it on,
    [checkDefault] past the default period always reverts. *)
Theorem checkDefault_forecloses (c : Ctx) (id : Z) (w : World) (u : unit) (w' : World) :
  checkDefault c id w = Ok (u, w') ->
  DEFAULT_PERIOD < now c - lastPaymentTimestamp (mortgages (mgr w) id) ->
  owners (nft w) id = borrower (mortgages (mgr w) id) /\
  owners (nft w') id = MANAGER /\
  isListed (properties (nft w') id) = true.
Proof.
  intros H Ht. unfold checkDefault, handleDefault, foreclose, coverDefault,
    get_insuranceReserve, transferFrom, nft_update, listProperty,
    set_mortgage, set_totalActive, with_status, set_nft_props,
    set_pool_amounts, mgr_ctx in *.
  unfold_monad. split_ok H.
  all: kill_refl.
  all: bool_facts; try lia.
  all: ok_inv H; simpl; unfold upd in *; rewrite ?Z.eqb_refl in *; simpl in *.
  all: repeat split; try assumption; try reflexivity.
Qed.

Lemma checkDefault_forecloses_witness :
  let c := mkCtx LP1 0 default_time in
  let w1 := run [OpCheckDefault c 0] approved_world in
  checkDefault c 0 approved_world = Ok (tt, w1) /\
  DEFAULT_PERIOD < now c - lastPaymentTimestamp (mortgages (mgr approved_world) 0) /\
  owners (nft w1) 0 = MANAGER.
Proof.
  intros c w1.
  assert (H : checkDefault c 0 approved_world = Ok (tt, w1))
    by (vm_compute; reflexivity).
  assert (Ht : DEFAULT_PERIOD <
               now c - lastPaymentTimestamp (mortgages (mgr approved_world) 0))
    by (vm_compute; reflexivity).
  split; [exact H|]. split; [exact Ht|].
  exact (proj1 (proj2 (checkDefault_forecloses c 0 approved_world tt w1 H Ht))).
Defined.
